(** * Weather acquisition and normalization: a shallow embedding of [srv/server.go]

    The development follows the Go source function by function:
    - the records [WeatherData], [HourlyForecast] and [openMeteoResponse];
    - [weatherCodeToCondition], the switch from provider codes to label and icon;
    - [windDirectionToCompass], on IEEE 754 binary64 values;
    - [fetchWeather], with the HTTP exchange passed in as data and the
      normalization loop over the parallel hourly arrays;
    - [HandleRoot], [HandleAPI] and [renderTemplate], as the sequence of calls
      they make on the response writer, the template engine and the logger.

    Go [int] is the 64-bit signed integer, carried by [Z]; Go [float64] is
    binary64, carried by [spec_float]; Go [string] is a byte sequence, carried
    by [string] (a list of 8-bit [ascii]); a slice that is only read is a
    [list]. *)

From Stdlib Require Import ZArith QArith Qround Qabs Qpower String Ascii List Bool Lia Lqa.
From Stdlib Require Import SpecFloat.
Import ListNotations.

Open Scope string_scope.
Open Scope Z_scope.

(** ** Machine integers *)

Definition int_min : Z := - 2 ^ 63.
Definition int_max : Z := 2 ^ 63 - 1.
Definition is_int (z : Z) : Prop := int_min <= z <= int_max.

(** ** Condition mapping *)

(** [weatherCodeToCondition] is the [switch] of the source, one branch per
    [case], the string literals byte for byte as the source file has them. *)
Definition weatherCodeToCondition (code : Z) (isDay : bool) : string * string :=
  if code =? 0 then
    if isDay then ("Clear sky", "â˜€ï¸") else ("Clear sky", "ðŸŒ™")
  else if code =? 1 then
    if isDay then ("Mainly clear", "ðŸŒ¤ï¸") else ("Mainly clear", "ðŸŒ™")
  else if code =? 2 then ("Partly cloudy", "â›…")
  else if code =? 3 then ("Overcast", "â˜ï¸")
  else if (code =? 45) || (code =? 48) then ("Foggy", "ðŸŒ«ï¸")
  else if (code =? 51) || (code =? 53) || (code =? 55) then ("Drizzle", "ðŸŒ§ï¸")
  else if (code =? 56) || (code =? 57) then ("Freezing drizzle", "ðŸŒ§ï¸â„ï¸")
  else if (code =? 61) || (code =? 63) || (code =? 65) then ("Rain", "ðŸŒ§ï¸")
  else if (code =? 66) || (code =? 67) then ("Freezing rain", "ðŸŒ§ï¸â„ï¸")
  else if (code =? 71) || (code =? 73) || (code =? 75) then ("Snow", "ðŸŒ¨ï¸")
  else if code =? 77 then ("Snow grains", "ðŸŒ¨ï¸")
  else if (code =? 80) || (code =? 81) || (code =? 82) then ("Rain showers", "ðŸŒ¦ï¸")
  else if (code =? 85) || (code =? 86) then ("Snow showers", "ðŸŒ¨ï¸")
  else if code =? 95 then ("Thunderstorm", "â›ˆï¸")
  else if (code =? 96) || (code =? 99) then ("Thunderstorm with hail", "â›ˆï¸")
  else ("Unknown", "â“").

(** The icon glyphs, named after what the table of the specification calls
    them (sun, moon, sun behind a small cloud, unknown) or what they depict. *)
Definition icon_sun : string := "â˜€ï¸".
Definition icon_moon : string := "ðŸŒ™".
Definition icon_sun_small_cloud : string := "ðŸŒ¤ï¸".
Definition icon_sun_behind_cloud : string := "â›…".
Definition icon_cloud : string := "â˜ï¸".
Definition icon_fog : string := "ðŸŒ«ï¸".
Definition icon_rain_cloud : string := "ðŸŒ§ï¸".
Definition icon_rain_snowflake : string := "ðŸŒ§ï¸â„ï¸".
Definition icon_snow_cloud : string := "ðŸŒ¨ï¸".
Definition icon_sun_rain_cloud : string := "ðŸŒ¦ï¸".
Definition icon_thunder_cloud : string := "â›ˆï¸".
Definition icon_unknown : string := "â“".

(** ** Binary64 arithmetic

    Go's [float64] is IEEE 754 binary64.  Its values and operations are those
    of [SpecFloat], the specification the standard library gives for binary
    floating-point arithmetic, at precision 53 and maximal exponent 1024:
    [SFdiv] and [SFadd] round to nearest, ties to even, and
    [binary_normalize] is the rounding conversion from an integer. *)

Definition float64 : Type := spec_float.

Definition prec64 : Z := 53.
Definition emax64 : Z := 1024.

Definition float64_zero : float64 := S754_zero false.

(** The conversion [float64(n)]. *)
Definition float64_of_int (n : Z) : float64 := binary_normalize prec64 emax64 n 0 false.

Definition float64_div (x y : float64) : float64 := SFdiv prec64 emax64 x y.
Definition float64_add (x y : float64) : float64 := SFadd prec64 emax64 x y.

(** The constants [22.5] = 45 * 2^-1 and [0.5] = 2^-1 are binary64 values. *)
Definition float64_22_5 : float64 := binary_normalize prec64 emax64 45 (-1) false.
Definition float64_0_5 : float64 := binary_normalize prec64 emax64 1 (-1) false.

(** The conversion [int(f)] discards the fraction (truncation towards zero).
    Where the value is not an [int] (NaN, an infinity, a magnitude beyond 64
    bits) the language leaves the result to the implementation: [None]. *)
Definition int_of_float64 (f : float64) : option Z :=
  match f with
  | S754_zero _ => Some 0
  | S754_finite s m e =>
      let t := cond_Zopp s (Z.shiftl (Z.pos m) e) in
      if (int_min <=? t) && (t <=? int_max) then Some t else None
  | _ => None
  end.

(** ** Wind compass helper *)

(** What a call can do: return, panic at run time, or depend on the
    implementation. *)
Inductive outcome (A : Type) : Type :=
| Returns (a : A)
| Panics
| Unspecified.

Arguments Returns {A} a.
Arguments Panics {A}.
Arguments Unspecified {A}.

(** [s[i]] on a slice: a run-time panic ([None]) when [i] is out of range. *)
Definition slice_index {A : Type} (s : list A) (i : Z) : option A :=
  if (i <? 0) || (Z.of_nat (length s) <=? i) then None
  else nth_error s (Z.to_nat i).

Definition directions : list string :=
  ["N"; "NNE"; "NE"; "ENE"; "E"; "ESE"; "SE"; "SSE";
   "S"; "SSW"; "SW"; "WSW"; "W"; "WNW"; "NW"; "NNW"].

(** [int(float64(degrees)/22.5+0.5) % 16]; Go's [%] is the remainder of the
    truncated division, [Z.rem]. *)
Definition compassIndex (degrees : Z) : option Z :=
  match int_of_float64
          (float64_add (float64_div (float64_of_int degrees) float64_22_5) float64_0_5)
  with
  | Some t => Some (Z.rem t 16)
  | None => None
  end.

Definition windDirectionToCompass (degrees : Z) : outcome string :=
  match compassIndex degrees with
  | Some index =>
      match slice_index directions index with
      | Some direction => Returns direction
      | None => Panics
      end
  | None => Unspecified
  end.

(** ** The two calls into Go's [time] package

    [fetchWeather] calls [time.Parse("2006-01-02T15:04", timeStr)] and, on
    success, [t.Format("3 PM")].  The definitions below follow the standard
    library's [parse] for that one layout: the chunks are a four-digit year
    ([stdLongYear]), a two-digit month ([stdZeroMonth]), a two-digit day
    ([stdZeroDay]), an hour of one or two digits ([stdHour]) and a two-digit
    minute ([stdZeroMinute]), separated by the literal bytes [-], [-], [T]
    and [:]; text left over is an error, and so is a field out of range. *)

Record Time := {
  t_year : Z;
  t_month : Z;
  t_day : Z;
  t_hour : Z;
  t_min : Z
}.

Definition isDigit (c : ascii) : bool :=
  let n := nat_of_ascii c in (48 <=? n)%nat && (n <=? 57)%nat.

Definition digitVal (c : ascii) : Z := Z.of_nat (nat_of_ascii c) - 48.

(** [getnum(s, fixed)]: one or two leading digits; with [fixed], exactly two. *)
Definition getnum (s : string) (fixed : bool) : option (Z * string) :=
  match s with
  | String c0 s1 =>
      if isDigit c0 then
        match s1 with
        | String c1 s2 =>
            if isDigit c1 then Some (digitVal c0 * 10 + digitVal c1, s2)
            else if fixed then None else Some (digitVal c0, s1)
        | EmptyString => if fixed then None else Some (digitVal c0, s1)
        end
      else None
  | EmptyString => None
  end.

(** The [stdLongYear] case: at least four bytes, all four of them digits. *)
Definition getyear (s : string) : option (Z * string) :=
  match s with
  | String c0 (String c1 (String c2 (String c3 rest))) =>
      if isDigit c0 && isDigit c1 && isDigit c2 && isDigit c3 then
        Some (((digitVal c0 * 10 + digitVal c1) * 10 + digitVal c2) * 10 + digitVal c3, rest)
      else None
  | _ => None
  end.

(** [skip(value, prefix)] for a one-byte prefix that is not a space. *)
Definition skip (value : string) (prefix : ascii) : option string :=
  match value with
  | String c rest => if Ascii.eqb c prefix then Some rest else None
  | EmptyString => None
  end.

Definition isLeap (year : Z) : bool :=
  (year mod 4 =? 0) && (negb (year mod 100 =? 0) || (year mod 400 =? 0)).

Definition daysIn (month year : Z) : Z :=
  if month =? 2 then (if isLeap year then 29 else 28)
  else if (month =? 4) || (month =? 6) || (month =? 9) || (month =? 11) then 30
  else 31.

Definition bind {A B : Type} (x : option A) (f : A -> option B) : option B :=
  match x with
  | Some a => f a
  | None => None
  end.

Notation "' p <- x ;; k" := (bind x (fun p => k))
  (at level 61, p pattern, x at next level, right associativity).

(** [time.Parse("2006-01-02T15:04", value)]; [None] is a non-nil error. *)
Definition time_Parse (value : string) : option Time :=
  ' (year, value) <- getyear value ;;
  ' value <- skip value "-" ;;
  ' (month, value) <- getnum value true ;;
  if (month <=? 0) || (12 <? month) then None else
  ' value <- skip value "-" ;;
  ' (day, value) <- getnum value true ;;
  ' value <- skip value "T" ;;
  ' (hour, value) <- getnum value false ;;
  if (hour <? 0) || (24 <=? hour) then None else
  ' value <- skip value ":" ;;
  ' (min, value) <- getnum value true ;;
  if (min <? 0) || (60 <=? min) then None else
  if negb (String.eqb value "") then None else
  if (day <? 1) || (daysIn month year <? day) then None else
  Some {| t_year := year; t_month := month; t_day := day;
          t_hour := hour; t_min := min |}.

(** [appendInt(b, x, 0)] for the values an hour of the 12-hour clock takes. *)
Definition digitChar (d : Z) : ascii := ascii_of_nat (Z.to_nat (48 + d)).

Definition appendInt (x : Z) : string :=
  if x <? 10 then String (digitChar x) ""
  else String (digitChar (x / 10)) (String (digitChar (x mod 10)) "").

(** [t.Format("3 PM")]: the hour of the 12-hour clock without padding
    ([stdHour12]), a space, and [AM] or [PM] ([stdPM]). *)
Definition time_Format (t : Time) : string :=
  let hour := t_hour t in
  let hr := Z.rem hour 12 in
  let hr := if hr =? 0 then 12 else hr in
  appendInt hr ++ " " ++ (if 12 <=? hour then "PM" else "AM").

(** ** Data model *)

Record WeatherData := {
  wd_Temperature : float64;
  wd_FeelsLike : float64;
  wd_Humidity : Z;
  wd_WindSpeed : float64;
  wd_WindDirection : Z;
  wd_WeatherCode : Z;
  wd_IsDay : bool;
  wd_Precipitation : float64;
  wd_CloudCover : Z;
  wd_LastUpdated : string;
  wd_Condition : string;
  wd_ConditionEmoji : string
}.

Record HourlyForecast := {
  hf_Time : string;
  hf_Hour : string;
  hf_Temperature : float64;
  hf_WeatherCode : Z;
  hf_ConditionEmoji : string;
  hf_PrecipProb : Z;
  hf_IsDay : bool
}.

(** The two anonymous structs of [openMeteoResponse]. *)
Record openMeteoCurrent := {
  cur_Time : string;
  cur_Temperature2m : float64;
  cur_ApparentTemp : float64;
  cur_RelativeHumidity : Z;
  cur_WindSpeed10m : float64;
  cur_WindDirection10m : Z;
  cur_WeatherCode : Z;
  cur_IsDay : Z;
  cur_Precipitation : float64;
  cur_CloudCover : Z
}.

Record openMeteoHourly := {
  hr_Time : list string;
  hr_Temperature2m : list float64;
  hr_WeatherCode : list Z;
  hr_PrecipProb : list Z;
  hr_IsDay : list Z
}.

Record openMeteoResponse := {
  Current : openMeteoCurrent;
  Hourly : openMeteoHourly
}.

(** ** [fetchWeather] *)

(** What the outside world hands to [fetchWeather]: [client.Get] fails, or it
    returns a response with a status code whose body the JSON decoder either
    rejects or decodes. *)
Inductive getOutcome :=
| GetFailed (cause : string)
| GetResponse (StatusCode : Z) (decoded : string + openMeteoResponse).

Inductive fetchError :=
| ErrFetch (cause : string)
| ErrStatus (StatusCode : Z)
| ErrDecode (cause : string).

(** [l[i]] with [i] a loop index: [None] is the index-out-of-range panic. *)
Definition at_index {A : Type} (l : list A) (i : nat) : option A := nth_error l i.

(** The hour label of one entry (source lines 154-157). *)
Definition hourDisplay (timeStr : string) : string :=
  match time_Parse timeStr with
  | Some t => time_Format t
  | None => timeStr
  end.

(** The body of [for i, timeStr := range data.Hourly.Time]: [times] is what is
    left of the ranged slice, [i] the index of its head, [hourly] the slice
    built so far.  [None] stands for a run-time panic. *)
Fixpoint hourlyLoop (h : openMeteoHourly) (i : nat) (times : list string)
    (hourly : list HourlyForecast) : option (list HourlyForecast) :=
  match times with
  | [] => Some hourly
  | timeStr :: rest =>
      if (length (hr_Temperature2m h) <=? i)%nat || (length (hr_WeatherCode h) <=? i)%nat
      then Some hourly
      else
        ' isDay <- (if (i <? length (hr_IsDay h))%nat
                    then ' d <- at_index (hr_IsDay h) i ;; Some (d =? 1)
                    else Some false) ;;
        ' code <- at_index (hr_WeatherCode h) i ;;
        let hourEmoji := snd (weatherCodeToCondition code isDay) in
        ' precipProb <- (if (i <? length (hr_PrecipProb h))%nat
                         then at_index (hr_PrecipProb h) i
                         else Some 0) ;;
        ' temperature <- at_index (hr_Temperature2m h) i ;;
        hourlyLoop h (S i) rest
          (hourly ++ [ {| hf_Time := timeStr;
                          hf_Hour := hourDisplay timeStr;
                          hf_Temperature := temperature;
                          hf_WeatherCode := code;
                          hf_ConditionEmoji := hourEmoji;
                          hf_PrecipProb := precipProb;
                          hf_IsDay := isDay |} ])
  end.

Definition buildHourly (data : openMeteoResponse) : option (list HourlyForecast) :=
  hourlyLoop (Hourly data) 0 (hr_Time (Hourly data)) [].

Definition buildWeather (data : openMeteoResponse) : WeatherData :=
  let c := Current data in
  let '(condition, emoji) := weatherCodeToCondition (cur_WeatherCode c) (cur_IsDay c =? 1) in
  {| wd_Temperature := cur_Temperature2m c;
     wd_FeelsLike := cur_ApparentTemp c;
     wd_Humidity := cur_RelativeHumidity c;
     wd_WindSpeed := cur_WindSpeed10m c;
     wd_WindDirection := cur_WindDirection10m c;
     wd_WeatherCode := cur_WeatherCode c;
     wd_IsDay := cur_IsDay c =? 1;
     wd_Precipitation := cur_Precipitation c;
     wd_CloudCover := cur_CloudCover c;
     wd_LastUpdated := cur_Time c;
     wd_Condition := condition;
     wd_ConditionEmoji := emoji |}.

(** The three results of [fetchWeather] are a triple in Go; here an error, or
    the pair of the weather record and the hourly slice.  The outer option is
    [None] when the loop panics. *)
Definition fetchWeather (resp : getOutcome)
    : option (fetchError + WeatherData * list HourlyForecast) :=
  match resp with
  | GetFailed cause => Some (inl (ErrFetch cause))
  | GetResponse StatusCode decoded =>
      if negb (StatusCode =? 200) then Some (inl (ErrStatus StatusCode))
      else
        match decoded with
        | inl cause => Some (inl (ErrDecode cause))
        | inr data =>
            let weather := buildWeather data in
            ' hourly <- buildHourly data ;;
            Some (inr (weather, hourly))
        end
  end.

(** ** Request handlers *)

(** The fields of [Server] the handlers read; [DB] is an opaque handle that
    no handler touches. *)
Record Server := {
  srv_Hostname : string;
  srv_TemplatesDir : string;
  srv_StaticDir : string
}.

(** [Weather] is a pointer: [None] is nil. *)
Record pageData := {
  pd_Hostname : string;
  pd_Now : string;
  pd_Weather : option WeatherData;
  pd_Hourly : list HourlyForecast;
  pd_Error : string
}.

(** What the template engine does with [weather.html]: [ParseFiles] fails,
    [Execute] fails, or the page is rendered. *)
Inductive templateOutcome :=
| ParseFails (cause : string)
| ExecuteFails (cause : string)
| Rendered.

Inductive renderError :=
| ErrParseTemplate (name cause : string)
| ErrExecuteTemplate (name cause : string).

(** The calls a handler makes on the response writer, the template engine
    and the logger, in the order it makes them. *)
Inductive effect :=
| SlogError (msg : string) (err : fetchError)
| SlogWarn (msg url : string) (err : renderError)
| HeaderSet (key value : string)
| ParseFiles (dir name : string)
| Execute (name : string) (data : pageData)
| HttpError (msg : string) (code : Z)
| Encode (current : WeatherData) (hourly : list HourlyForecast).

Definition StatusServiceUnavailable : Z := 503.

(** [ParseFiles dir name] stands for the call on [filepath.Join(dir, name)]. *)
Definition renderTemplate (s : Server) (name : string) (data : pageData)
    (tpl : templateOutcome) : list effect * option renderError :=
  let parse := ParseFiles (srv_TemplatesDir s) name in
  match tpl with
  | ParseFails cause => ([parse], Some (ErrParseTemplate name cause))
  | ExecuteFails cause => ([parse; Execute name data], Some (ErrExecuteTemplate name cause))
  | Rendered => ([parse; Execute name data], None)
  end.

(** [now] is [time.Now().Format(time.RFC3339)] and [path] is [r.URL.Path];
    [None] is a run-time panic. *)
Definition HandleRoot (s : Server) (now path : string) (resp : getOutcome)
    (tpl : templateOutcome) : option (list effect) :=
  let data := {| pd_Hostname := srv_Hostname s; pd_Now := now;
                 pd_Weather := None; pd_Hourly := []; pd_Error := "" |} in
  ' fetched <- fetchWeather resp ;;
  let '(logged, data) :=
    match fetched with
    | inl err =>
        ([SlogError "fetch weather" err],
         {| pd_Hostname := pd_Hostname data; pd_Now := pd_Now data;
            pd_Weather := pd_Weather data; pd_Hourly := pd_Hourly data;
            pd_Error := "Unable to fetch weather data. Please try again later." |})
    | inr (weather, hourly) =>
        ([],
         {| pd_Hostname := pd_Hostname data; pd_Now := pd_Now data;
            pd_Weather := Some weather; pd_Hourly := hourly;
            pd_Error := pd_Error data |})
    end in
  let '(rendered, err) := renderTemplate s "weather.html" data tpl in
  Some (logged ++ [HeaderSet "Content-Type" "text/html; charset=utf-8"] ++ rendered
        ++ match err with
           | Some err => [SlogWarn "render template" path err]
           | None => []
           end)%list.

Definition HandleAPI (resp : getOutcome) : option (list effect) :=
  ' fetched <- fetchWeather resp ;;
  match fetched with
  | inl err =>
      Some [SlogError "fetch weather" err;
            HttpError "Unable to fetch weather" StatusServiceUnavailable]
  | inr (weather, hourly) =>
      Some [HeaderSet "Content-Type" "application/json"; Encode weather hourly]
  end.

(** ** Specification-side definitions

    What the specification says, written independently of the code above, to
    be compared with it. *)

(** The condition-mapping table of the specification: the codes of a row,
    its label, its day icon and its night icon (the same glyph twice where
    the row has no day/night variant). *)
Definition condition_table : list (list Z * string * string * string) :=
  [ ([0], "Clear sky", icon_sun, icon_moon);
    ([1], "Mainly clear", icon_sun_small_cloud, icon_moon);
    ([2], "Partly cloudy", icon_sun_behind_cloud, icon_sun_behind_cloud);
    ([3], "Overcast", icon_cloud, icon_cloud);
    ([45; 48], "Foggy", icon_fog, icon_fog);
    ([51; 53; 55], "Drizzle", icon_rain_cloud, icon_rain_cloud);
    ([56; 57], "Freezing drizzle", icon_rain_snowflake, icon_rain_snowflake);
    ([61; 63; 65], "Rain", icon_rain_cloud, icon_rain_cloud);
    ([66; 67], "Freezing rain", icon_rain_snowflake, icon_rain_snowflake);
    ([71; 73; 75], "Snow", icon_snow_cloud, icon_snow_cloud);
    ([77], "Snow grains", icon_snow_cloud, icon_snow_cloud);
    ([80; 81; 82], "Rain showers", icon_sun_rain_cloud, icon_sun_rain_cloud);
    ([85; 86], "Snow showers", icon_snow_cloud, icon_snow_cloud);
    ([95], "Thunderstorm", icon_thunder_cloud, icon_thunder_cloud);
    ([96; 99], "Thunderstorm with hail", icon_thunder_cloud, icon_thunder_cloud) ].

Definition row_codes (row : list Z * string * string * string) : list Z :=
  let '(codes, _, _, _) := row in codes.

Definition row_result (row : list Z * string * string * string) (isDay : bool)
    : string * string :=
  let '(_, label, day, night) := row in (label, if isDay then day else night).

(** Every code the table has a row for. *)
Definition mapped_codes : list Z := flat_map row_codes condition_table.

(** [round(degrees / 22.5) mod 16], rounding half up: [floor (x + 1/2)]. *)
Definition round_half_up (x : Q) : Z := Qfloor (x + (1 # 2)).

Definition compass_spec (degrees : Z) : Z :=
  round_half_up (inject_Z degrees / (45 # 2)) mod 16.

(** The entry the specification describes for index [i] and timestamp
    [timeStr]: absent day/night and precipitation values default to [false]
    and [0]. *)
Definition entry_spec (h : openMeteoHourly) (i : nat) (timeStr : string)
    : HourlyForecast :=
  let isDay := match nth_error (hr_IsDay h) i with
               | Some d => d =? 1
               | None => false
               end in
  let code := nth i (hr_WeatherCode h) 0 in
  {| hf_Time := timeStr;
     hf_Hour := hourDisplay timeStr;
     hf_Temperature := nth i (hr_Temperature2m h) float64_zero;
     hf_WeatherCode := code;
     hf_ConditionEmoji := snd (weatherCodeToCondition code isDay);
     hf_PrecipProb := match nth_error (hr_PrecipProb h) i with
                      | Some p => p
                      | None => 0
                      end;
     hf_IsDay := isDay |}.

(** The entries for the timestamps [times], the first of index [i], up to the
    first index the temperature or the weather-code array does not have. *)
Fixpoint entries_spec (h : openMeteoHourly) (i : nat) (times : list string)
    : list HourlyForecast :=
  match times with
  | [] => []
  | timeStr :: rest =>
      if (i <? length (hr_Temperature2m h))%nat && (i <? length (hr_WeatherCode h))%nat
      then entry_spec h i timeStr :: entries_spec h (S i) rest
      else []
  end.

(** A timestamp of the form [YYYY-MM-DDTHH:MM]. *)
Definition pad2 (n : Z) : string :=
  String (digitChar (n / 10)) (String (digitChar (n mod 10)) "").

Definition pad4 (n : Z) : string :=
  String (digitChar (n / 1000)) (String (digitChar (n / 100 mod 10))
    (String (digitChar (n / 10 mod 10)) (String (digitChar (n mod 10)) ""))).

Definition timestamp (t : Time) : string :=
  pad4 (t_year t) ++ "-" ++ pad2 (t_month t) ++ "-" ++ pad2 (t_day t)
    ++ "T" ++ pad2 (t_hour t) ++ ":" ++ pad2 (t_min t).

Definition valid_time (t : Time) : Prop :=
  0 <= t_year t <= 9999 /\ 1 <= t_month t <= 12 /\
  1 <= t_day t <= daysIn (t_month t) (t_year t) /\
  0 <= t_hour t <= 23 /\ 0 <= t_min t <= 59.

(** The label of the 12-hour clock for an hour of the day. *)
Definition hour_label (hour : Z) : string :=
  match hour with
  | 0 => "12 AM" | 1 => "1 AM" | 2 => "2 AM" | 3 => "3 AM" | 4 => "4 AM"
  | 5 => "5 AM" | 6 => "6 AM" | 7 => "7 AM" | 8 => "8 AM" | 9 => "9 AM"
  | 10 => "10 AM" | 11 => "11 AM" | 12 => "12 PM" | 13 => "1 PM"
  | 14 => "2 PM" | 15 => "3 PM" | 16 => "4 PM" | 17 => "5 PM" | 18 => "6 PM"
  | 19 => "7 PM" | 20 => "8 PM" | 21 => "9 PM" | 22 => "10 PM" | _ => "11 PM"
  end.

(** A response whose hourly block has 24 timestamps and temperatures, 20
    weather codes and no day/night or precipitation values. *)
Definition short_codes_response : openMeteoResponse :=
  {| Current := {| cur_Time := "2024-03-15T15:00";
                   cur_Temperature2m := float64_of_int 52;
                   cur_ApparentTemp := float64_of_int 50;
                   cur_RelativeHumidity := 40;
                   cur_WindSpeed10m := float64_of_int 7;
                   cur_WindDirection10m := 270;
                   cur_WeatherCode := 2;
                   cur_IsDay := 1;
                   cur_Precipitation := float64_of_int 0;
                   cur_CloudCover := 35 |};
     Hourly := {| hr_Time := repeat "2024-03-15T15:00" 24;
                  hr_Temperature2m := repeat (float64_of_int 52) 24;
                  hr_WeatherCode := repeat 61 20;
                  hr_PrecipProb := [];
                  hr_IsDay := [] |} |}.

(** A response whose hourly block has four entries and the day/night values
    1, 0 and 2 for the first three of them. *)
Definition mixed_isDay_response : openMeteoResponse :=
  {| Current := {| cur_Time := "2024-03-15T15:00";
                   cur_Temperature2m := float64_of_int 52;
                   cur_ApparentTemp := float64_of_int 50;
                   cur_RelativeHumidity := 40;
                   cur_WindSpeed10m := float64_of_int 7;
                   cur_WindDirection10m := 270;
                   cur_WeatherCode := 0;
                   cur_IsDay := 2;
                   cur_Precipitation := float64_of_int 0;
                   cur_CloudCover := 35 |};
     Hourly := {| hr_Time := ["2024-03-15T15:00"; "2024-03-15T16:00";
                              "2024-03-15T17:00"; "2024-03-15T18:00"];
                  hr_Temperature2m := [float64_of_int 52; float64_of_int 51; float64_of_int 50; float64_of_int 49];
                  hr_WeatherCode := [0; 1; 2; 3];
                  hr_PrecipProb := [10; 20];
                  hr_IsDay := [1; 0; 2] |} |}.

(** A response whose hourly block has a timestamp of the expected form, one
    that is not a time at all, one with seconds and one with a one-digit
    hour. *)
Definition raw_time_response : openMeteoResponse :=
  {| Current := {| cur_Time := "2024-03-15T15:00";
                   cur_Temperature2m := float64_of_int 52;
                   cur_ApparentTemp := float64_of_int 50;
                   cur_RelativeHumidity := 40;
                   cur_WindSpeed10m := float64_of_int 7;
                   cur_WindDirection10m := 270;
                   cur_WeatherCode := 2;
                   cur_IsDay := 1;
                   cur_Precipitation := float64_of_int 0;
                   cur_CloudCover := 35 |};
     Hourly := {| hr_Time := ["2024-03-15T15:00"; "not-a-time";
                              "2024-03-15T16:00:00"; "2024-03-15T9:00"];
                  hr_Temperature2m := [float64_of_int 52; float64_of_int 51;
                                       float64_of_int 50; float64_of_int 49];
                  hr_WeatherCode := [0; 1; 2; 3];
                  hr_PrecipProb := [10; 20; 30; 40];
                  hr_IsDay := [1; 1; 1; 1] |} |}.

(** ** Binary64 rounding on rationals

    The proofs about [windDirectionToCompass] go through a second model of the
    same arithmetic: a finite binary64 value is the rational it denotes, an
    operation is the exact rational operation followed by [round64], the
    rounding to 53 significant bits.  [compassIndex_rational] shows that the
    bit-level computation above and this one agree on every [int]. *)

Definition pow2 (e : Z) : Q := (2 ^ e)%Q.

(** For [q > 0], the exponent [l] with [2^l <= q < 2^(l+1)]. *)
Definition ilog2 (q : Q) : Z :=
  let l := Z.log2 (Qnum q) - Z.log2 (Zpos (Qden q)) in
  if Qle_bool (pow2 l) q then l else l - 1.

(** Nearest integer, a tie going to the even neighbour. *)
Definition round_half_even (r : Q) : Z :=
  let f := Qfloor r in
  match (r - inject_Z f ?= 1 # 2)%Q with
  | Lt => f
  | Gt => f + 1
  | Eq => if Z.even f then f else f + 1
  end.

(** Rounding to 53 significant bits. *)
Definition round64 (q : Q) : Q :=
  if Qeq_bool q 0 then 0%Q
  else
    let e := ilog2 (Qabs q) - 52 in
    (inject_Z (round_half_even (q / pow2 e)) * pow2 e)%Q.

Definition rat_of_int (n : Z) : Q := round64 (inject_Z n).
Definition rat_div (x y : Q) : Q := round64 (x / y).
Definition rat_add (x y : Q) : Q := round64 (x + y).

(** Truncation towards zero. *)
Definition rat_to_int (f : Q) : Z := Z.quot (Qnum f) (Zpos (Qden f)).

Definition rat_compassIndex (degrees : Z) : Z :=
  Z.rem (rat_to_int (rat_add (rat_div (rat_of_int degrees) (45 # 2)) (1 # 2))) 16.

(** The rational a finite bit pattern denotes. *)
Definition Vf (s : bool) (m : positive) (e : Z) : Q :=
  ((if s then inject_Z (Z.neg m) else inject_Z (Z.pos m)) * pow2 e)%Q.

(** The place of a real [v] relative to the integer [m], as the rounding
    functions of [SpecFloat] record it. *)
Definition inbetween (m : Z) (l : location) (v : Q) : Prop :=
  match l with
  | loc_Exact => v == inject_Z m
  | loc_Inexact Lt => inject_Z m < v /\ v < inject_Z m + (1 # 2)
  | loc_Inexact Eq => v == inject_Z m + (1 # 2)
  | loc_Inexact Gt => inject_Z m + (1 # 2) < v /\ v < inject_Z m + 1
  end%Q.

(** The relative rounding error of binary64, [2^-53]. *)
Definition ulp53 : Q := 1 # 9007199254740992.

(** Zero, or a magnitude from [2^-7] to [2^64]. *)
Definition compass_magnitude (v : Q) : Prop :=
  (v == 0 \/ (pow2 (-7) <= Qabs v /\ Qabs v <= pow2 64))%Q.

Definition compass_magnitudeb (v : Q) : bool :=
  Qeq_bool v 0 || (Qle_bool (pow2 (-7)) (Qabs v) && Qle_bool (Qabs v) (pow2 64)).

(** The [n] integers from [lo] on. *)
Definition range (lo : Z) (n : nat) : list Z := map (fun k => lo + Z.of_nat k) (seq 0 n).

(** The values of [rat_compassIndex] are zero or of magnitude from [2^-7] to
    [2^64], the sum before the last rounding is not zero, and the truncation
    is an [int], as a boolean. *)
Definition compass_values_check (degrees : Z) : bool :=
  let f := rat_of_int degrees in
  let x := rat_div f (45 # 2) in
  let z := rat_add x (1 # 2) in
  compass_magnitudeb f && compass_magnitudeb x
  && negb (Qeq_bool (x + (1 # 2)) 0) && compass_magnitudeb (x + (1 # 2))
  && compass_magnitudeb z
  && (int_min <=? rat_to_int z) && (rat_to_int z <=? int_max).

(** The index is one of the 16 positions of [directions], as a boolean. *)
Definition index_in_bounds (degrees : Z) : bool :=
  (0 <=? rat_compassIndex degrees) && (rat_compassIndex degrees <=? 15).

(** The rational computation gives the index of the specification, as a
    boolean. *)
Definition formula_holds (degrees : Z) : bool :=
  rat_compassIndex degrees =? compass_spec degrees.

(** ** Further specification-side definitions *)

(** The upstream call did not deliver a decoded body with status 200. *)
Definition fetch_fails (resp : getOutcome) : Prop :=
  match resp with
  | GetFailed _ => True
  | GetResponse StatusCode decoded =>
      StatusCode <> 200 \/ exists cause, decoded = inl cause
  end.

(** The hourly block cut to its first [n] values. *)
Definition truncate_hourly (n : nat) (h : openMeteoHourly) : openMeteoHourly :=
  {| hr_Time := firstn n (hr_Time h);
     hr_Temperature2m := firstn n (hr_Temperature2m h);
     hr_WeatherCode := firstn n (hr_WeatherCode h);
     hr_PrecipProb := firstn n (hr_PrecipProb h);
     hr_IsDay := firstn n (hr_IsDay h) |}.

(** A timestamp whose hour is written with one digit. *)
Definition timestamp_short_hour (t : Time) : string :=
  pad4 (t_year t) ++ "-" ++ pad2 (t_month t) ++ "-" ++ pad2 (t_day t)
    ++ "T" ++ String (digitChar (t_hour t)) (":" ++ pad2 (t_min t)).

(** Each field fits the digits the layout gives it. *)
Definition fits_layout (t : Time) : Prop :=
  0 <= t_year t <= 9999 /\ 0 <= t_month t <= 99 /\ 0 <= t_day t <= 99
  /\ 0 <= t_hour t <= 99 /\ 0 <= t_min t <= 99.

(** The sectors of the compass rose in whole degrees: first degree, last
    degree, label. *)
Definition compass_sectors : list (Z * Z * string) :=
  [ (0, 11, "N"); (12, 33, "NNE"); (34, 56, "NE"); (57, 78, "ENE");
    (79, 101, "E"); (102, 123, "ESE"); (124, 146, "SE"); (147, 168, "SSE");
    (169, 191, "S"); (192, 213, "SSW"); (214, 236, "SW"); (237, 258, "WSW");
    (259, 281, "W"); (282, 303, "WNW"); (304, 326, "NW"); (327, 348, "NNW");
    (349, 360, "N") ].

Definition returns_label (o : outcome string) (label : string) : bool :=
  match o with
  | Returns a => String.eqb a label
  | _ => false
  end.

Definition panics (o : outcome string) : bool :=
  match o with
  | Panics => true
  | _ => false
  end.

(** [degrees] gets the label of every sector it lies in, as a boolean. *)
Definition sectors_hold (degrees : Z) : bool :=
  forallb (fun '(lo, hi, label) =>
             implb ((lo <=? degrees) && (degrees <=? hi))
                   (returns_label (windDirectionToCompass degrees) label))
          compass_sectors.

(** [degrees] lies in some sector, as a boolean. *)
Definition in_some_sector (degrees : Z) : bool :=
  existsb (fun '(lo, hi, _) => (lo <=? degrees) && (degrees <=? hi)) compass_sectors.

(** * Properties *)

(** ** Condition mapping *)

Lemma unmapped_code_eqb (code k : Z) :
  ~ In code mapped_codes -> In k mapped_codes -> (code =? k) = false.
Proof.
  intros Hout Hin. apply Z.eqb_neq. intros ->. exact (Hout Hin).
Qed.

(** C1. For every row of the condition-mapping table and every code of that
    row, [weatherCodeToCondition] returns the row's label with the row's day
    icon when [isDay] holds and its night icon otherwise; codes of one row
    share the result; for codes 0 and 1 the day icon differs from the night
    (moon) icon. *)
Theorem weatherCodeToCondition_table :
  (forall row code isDay,
      In row condition_table -> In code (row_codes row) ->
      weatherCodeToCondition code isDay = row_result row isDay)
  /\ icon_sun <> icon_moon
  /\ icon_sun_small_cloud <> icon_moon.
Proof.
  split; [| split; discriminate].
  intros row code isDay Hrow Hcode.
  simpl in Hrow.
  repeat (destruct Hrow as [<- | Hrow];
          [simpl in Hcode;
           repeat (destruct Hcode as [<- | Hcode]; [destruct isDay; reflexivity|]);
           contradiction|]).
  contradiction.
Qed.

Lemma weatherCodeToCondition_table_witness :
  weatherCodeToCondition 48 true = ("Foggy", icon_fog)
  /\ weatherCodeToCondition 0 false = ("Clear sky", icon_moon).
Proof.
  split.
  - apply (proj1 weatherCodeToCondition_table
             ([45; 48], "Foggy", icon_fog, icon_fog) 48 true); simpl; tauto.
  - apply (proj1 weatherCodeToCondition_table
             ([0], "Clear sky", icon_sun, icon_moon) 0 false); simpl; tauto.
Defined.

(** C7. A code that no row of the table lists is mapped to the label
    "Unknown" and the unknown icon, whatever [isDay] is. *)
Theorem weatherCodeToCondition_unknown (code : Z) (isDay : bool) :
  ~ In code mapped_codes ->
  weatherCodeToCondition code isDay = ("Unknown", icon_unknown).
Proof.
  intros Hout. unfold weatherCodeToCondition.
  rewrite !(unmapped_code_eqb code _ Hout) by (simpl; tauto).
  reflexivity.
Qed.

Lemma weatherCodeToCondition_unknown_witness :
  weatherCodeToCondition 4 true = ("Unknown", icon_unknown)
  /\ weatherCodeToCondition (-1) false = ("Unknown", icon_unknown).
Proof.
  split; apply weatherCodeToCondition_unknown; simpl; lia.
Defined.

(** C8. For a code of the table other than 0 and 1 the day/night flag does
    not change the result. *)
Theorem weatherCodeToCondition_isDay_irrelevant (code : Z) :
  In code mapped_codes -> code <> 0 -> code <> 1 ->
  weatherCodeToCondition code true = weatherCodeToCondition code false.
Proof.
  intros Hin H0 H1. simpl in Hin.
  repeat (destruct Hin as [<- | Hin]; [try reflexivity; congruence|]).
  contradiction.
Qed.

Lemma weatherCodeToCondition_isDay_irrelevant_witness :
  weatherCodeToCondition 95 true = weatherCodeToCondition 95 false.
Proof.
  apply weatherCodeToCondition_isDay_irrelevant; [simpl; tauto | lia | lia].
Defined.

(** ** The hourly loop *)

Section HourlyLoop.

Variable h : openMeteoHourly.

Lemma at_index_lt {A : Type} (l : list A) (i : nat) (d : A) :
  (i < length l)%nat -> at_index l i = Some (nth i l d).
Proof. intros Hi. unfold at_index. now apply nth_error_nth'. Qed.

(** The loop never panics: every index it reads is guarded. *)
Lemma hourlyLoop_entries (times : list string) :
  forall (i : nat) (hourly : list HourlyForecast),
    hourlyLoop h i times hourly = Some (hourly ++ entries_spec h i times)%list.
Proof.
  induction times as [| timeStr rest IH]; intros i hourly; simpl.
  - now rewrite app_nil_r.
  - destruct (Nat.leb_spec (length (hr_Temperature2m h)) i) as [Ht | Ht].
    { replace (i <? length (hr_Temperature2m h))%nat with false
        by (symmetry; apply Nat.ltb_ge; lia).
      simpl. now rewrite app_nil_r. }
    destruct (Nat.leb_spec (length (hr_WeatherCode h)) i) as [Hc | Hc].
    { replace (i <? length (hr_WeatherCode h))%nat with false
        by (symmetry; apply Nat.ltb_ge; lia).
      rewrite andb_false_r. simpl. now rewrite app_nil_r. }
    replace (i <? length (hr_Temperature2m h))%nat with true
      by (symmetry; apply Nat.ltb_lt; lia).
    replace (i <? length (hr_WeatherCode h))%nat with true
      by (symmetry; apply Nat.ltb_lt; lia).
    simpl.
    rewrite (at_index_lt (hr_WeatherCode h) i 0 Hc).
    rewrite (at_index_lt (hr_Temperature2m h) i float64_zero Ht).
    assert (Hday :
      (if (i <? length (hr_IsDay h))%nat
       then ' d <- at_index (hr_IsDay h) i ;; Some (d =? 1)
       else Some false)
      = Some match nth_error (hr_IsDay h) i with
             | Some d => d =? 1
             | None => false
             end).
    { destruct (Nat.ltb_spec i (length (hr_IsDay h))) as [Hd | Hd].
      - unfold at_index. rewrite (nth_error_nth' _ 0 Hd). reflexivity.
      - apply nth_error_None in Hd. now rewrite Hd. }
    assert (Hprob :
      (if (i <? length (hr_PrecipProb h))%nat
       then at_index (hr_PrecipProb h) i
       else Some 0)
      = Some match nth_error (hr_PrecipProb h) i with
             | Some p => p
             | None => 0
             end).
    { destruct (Nat.ltb_spec i (length (hr_PrecipProb h))) as [Hp | Hp].
      - unfold at_index. rewrite (nth_error_nth' _ 0 Hp). reflexivity.
      - apply nth_error_None in Hp. now rewrite Hp. }
    rewrite Hday, Hprob. simpl.
    rewrite IH, <- app_assoc. reflexivity.
Qed.

Lemma entries_spec_length (times : list string) :
  forall i : nat,
    length (entries_spec h i times)
    = Nat.min (length times)
        (Nat.min (length (hr_Temperature2m h) - i) (length (hr_WeatherCode h) - i)).
Proof.
  induction times as [| timeStr rest IH]; intros i; [reflexivity|].
  cbn [entries_spec].
  destruct (Nat.ltb_spec i (length (hr_Temperature2m h))) as [Ht | Ht];
    destruct (Nat.ltb_spec i (length (hr_WeatherCode h))) as [Hc | Hc];
    cbn [andb length]; try rewrite IH; lia.
Qed.

(** The [k]-th entry is the one built from the [k]-th timestamp and the
    values at index [i + k] of the other arrays. *)
Lemma entries_spec_nth (times : list string) :
  forall (i k : nat) (e : HourlyForecast),
    nth_error (entries_spec h i times) k = Some e ->
    exists timeStr,
      nth_error times k = Some timeStr
      /\ e = entry_spec h (i + k) timeStr
      /\ (i + k < length (hr_Temperature2m h))%nat
      /\ (i + k < length (hr_WeatherCode h))%nat.
Proof.
  induction times as [| timeStr rest IH]; intros i k e; simpl.
  - destruct k; discriminate.
  - destruct (Nat.ltb_spec i (length (hr_Temperature2m h))) as [Ht | Ht];
      destruct (Nat.ltb_spec i (length (hr_WeatherCode h))) as [Hc | Hc];
      simpl; try (destruct k; discriminate).
    destruct k as [| k]; simpl.
    + intros [= <-]. exists timeStr. rewrite Nat.add_0_r. auto.
    + intros Hk. destruct (IH (S i) k e Hk) as (t & H1 & H2 & H3 & H4).
      exists t. replace (i + S k)%nat with (S i + k)%nat by lia. auto.
Qed.

End HourlyLoop.

Lemma buildHourly_entries (data : openMeteoResponse) :
  buildHourly data = Some (entries_spec (Hourly data) 0 (hr_Time (Hourly data))).
Proof. unfold buildHourly. now rewrite hourlyLoop_entries. Qed.

Lemma fetchWeather_ok (data : openMeteoResponse) :
  fetchWeather (GetResponse 200 (inr data))
  = Some (inr (buildWeather data,
               entries_spec (Hourly data) 0 (hr_Time (Hourly data)))).
Proof. simpl. now rewrite buildHourly_entries. Qed.

(** C2. The hourly sequence has one entry per timestamp, in the order of the
    timestamp array, up to the first index that the temperature array or the
    weather-code array lacks: its length is the least of the three lengths and
    its [i]-th entry carries the [i]-th timestamp, temperature and code.  With
    24 temperatures, 20 codes and at least 20 timestamps it has 20 entries. *)
Theorem hourly_stops_at_first_missing_value (data : openMeteoResponse) :
  exists weather hourly,
    fetchWeather (GetResponse 200 (inr data)) = Some (inr (weather, hourly))
    /\ length hourly
       = Nat.min (length (hr_Time (Hourly data)))
           (Nat.min (length (hr_Temperature2m (Hourly data)))
                    (length (hr_WeatherCode (Hourly data))))
    /\ (forall i e,
          nth_error hourly i = Some e ->
          nth_error (hr_Time (Hourly data)) i = Some (hf_Time e)
          /\ nth_error (hr_Temperature2m (Hourly data)) i = Some (hf_Temperature e)
          /\ nth_error (hr_WeatherCode (Hourly data)) i = Some (hf_WeatherCode e))
    /\ (length (hr_Temperature2m (Hourly data)) = 24%nat ->
        length (hr_WeatherCode (Hourly data)) = 20%nat ->
        (20 <= length (hr_Time (Hourly data)))%nat ->
        length hourly = 20%nat).
Proof.
  eexists _, _. split; [apply fetchWeather_ok|].
  rewrite entries_spec_length, !Nat.sub_0_r.
  split; [reflexivity|]. split.
  - intros i e He.
    destruct (entries_spec_nth _ _ _ _ _ He) as (t & Ht & -> & Htemp & Hcode).
    simpl in Htemp, Hcode. simpl.
    split; [exact Ht|]. split; now apply nth_error_nth'.
  - intros H24 H20 Htimes. lia.
Qed.

Lemma hourly_stops_at_first_missing_value_witness :
  exists weather hourly,
    fetchWeather (GetResponse 200 (inr short_codes_response))
    = Some (inr (weather, hourly))
    /\ length hourly = 20%nat
    /\ nth_error (hr_WeatherCode (Hourly short_codes_response)) 19 = Some 61.
Proof.
  destruct (hourly_stops_at_first_missing_value short_codes_response)
    as (weather & hourly & Hfetch & Hlen & Hnth & H20).
  exists weather, hourly. split; [exact Hfetch|]. split.
  - apply H20; [reflexivity | reflexivity | simpl; lia].
  - vm_compute in Hfetch. injection Hfetch as _ <-.
    exact (proj2 (proj2 (Hnth 19%nat _ eq_refl))).
Defined.

(** C5. An entry is produced whatever the lengths of the day/night and
    precipitation-probability arrays are; where the day/night array has
    length at most [i] the [i]-th entry has [isDay = false], and where the
    precipitation-probability array has length at most [i] it has
    probability 0.  With an empty day/night array every entry has
    [isDay = false].  The call returns without error. *)
Theorem hourly_defaults_for_missing_values (data : openMeteoResponse) :
  exists weather hourly,
    fetchWeather (GetResponse 200 (inr data)) = Some (inr (weather, hourly))
    /\ length hourly
       = Nat.min (length (hr_Time (Hourly data)))
           (Nat.min (length (hr_Temperature2m (Hourly data)))
                    (length (hr_WeatherCode (Hourly data))))
    /\ (forall i e,
          nth_error hourly i = Some e ->
          (length (hr_IsDay (Hourly data)) <= i)%nat -> hf_IsDay e = false)
    /\ (forall i e,
          nth_error hourly i = Some e ->
          (length (hr_PrecipProb (Hourly data)) <= i)%nat -> hf_PrecipProb e = 0)
    /\ (hr_IsDay (Hourly data) = [] ->
        Forall (fun e => hf_IsDay e = false) hourly).
Proof.
  eexists _, _. split; [apply fetchWeather_ok|].
  rewrite entries_spec_length, !Nat.sub_0_r.
  split; [reflexivity|].
  assert (Hday : forall i e,
             nth_error (entries_spec (Hourly data) 0 (hr_Time (Hourly data))) i = Some e ->
             (length (hr_IsDay (Hourly data)) <= i)%nat -> hf_IsDay e = false).
  { intros i e He Hshort.
    destruct (entries_spec_nth _ _ _ _ _ He) as (t & _ & -> & _).
    apply nth_error_None in Hshort. simpl. now rewrite Hshort. }
  split; [exact Hday|]. split.
  - intros i e He Hshort.
    destruct (entries_spec_nth _ _ _ _ _ He) as (t & _ & -> & _).
    apply nth_error_None in Hshort. simpl. now rewrite Hshort.
  - intros Hempty. apply Forall_forall. intros e Hin.
    destruct (In_nth_error _ _ Hin) as [i Hi].
    apply (Hday i e Hi). rewrite Hempty. simpl. lia.
Qed.

Lemma hourly_defaults_for_missing_values_witness :
  exists weather hourly,
    fetchWeather (GetResponse 200 (inr short_codes_response))
    = Some (inr (weather, hourly))
    /\ Forall (fun e => hf_IsDay e = false) hourly
    /\ exists e, nth_error hourly 3 = Some e
                 /\ hf_IsDay e = false /\ hf_PrecipProb e = 0.
Proof.
  destruct (hourly_defaults_for_missing_values short_codes_response)
    as (weather & hourly & Hfetch & Hlen & Hday & Hprob & Hall).
  exists weather, hourly. split; [exact Hfetch|]. split.
  - apply Hall. reflexivity.
  - vm_compute in Hfetch. injection Hfetch as _ <-.
    eexists. split; [reflexivity|]. split.
    + apply (Hday 3%nat); [reflexivity | simpl; lia].
    + apply (Hprob 3%nat); [reflexivity | simpl; lia].
Defined.

(** ** Current conditions *)

(** C9. The current-conditions record carries the provider's current fields
    unchanged; its day/night flag is the comparison of the provider's integer
    with 1, and its label and icon are the condition mapping of the current
    weather code under that flag. *)
Theorem current_conditions_verbatim (data : openMeteoResponse) :
  exists weather hourly,
    fetchWeather (GetResponse 200 (inr data)) = Some (inr (weather, hourly))
    /\ wd_Temperature weather = cur_Temperature2m (Current data)
    /\ wd_FeelsLike weather = cur_ApparentTemp (Current data)
    /\ wd_Humidity weather = cur_RelativeHumidity (Current data)
    /\ wd_WindSpeed weather = cur_WindSpeed10m (Current data)
    /\ wd_WindDirection weather = cur_WindDirection10m (Current data)
    /\ wd_WeatherCode weather = cur_WeatherCode (Current data)
    /\ wd_Precipitation weather = cur_Precipitation (Current data)
    /\ wd_CloudCover weather = cur_CloudCover (Current data)
    /\ wd_LastUpdated weather = cur_Time (Current data)
    /\ wd_IsDay weather = (cur_IsDay (Current data) =? 1)
    /\ (wd_Condition weather, wd_ConditionEmoji weather)
       = weatherCodeToCondition (cur_WeatherCode (Current data))
           (cur_IsDay (Current data) =? 1).
Proof.
  eexists _, _. split; [apply fetchWeather_ok|].
  unfold buildWeather.
  destruct (weatherCodeToCondition _ _) as [condition emoji].
  simpl. repeat split.
Qed.

(** C10. The day/night flag of the current record, and of each hourly entry,
    is [true] exactly when the provider's integer is 1; any other integer, and
    a missing value, gives [false], and no error. *)
Theorem isDay_true_iff_one (data : openMeteoResponse) :
  exists weather hourly,
    fetchWeather (GetResponse 200 (inr data)) = Some (inr (weather, hourly))
    /\ (wd_IsDay weather = true <-> cur_IsDay (Current data) = 1)
    /\ (forall i e,
          nth_error hourly i = Some e ->
          (hf_IsDay e = true <-> nth_error (hr_IsDay (Hourly data)) i = Some 1)).
Proof.
  eexists _, _. split; [apply fetchWeather_ok|]. split.
  - unfold buildWeather.
    destruct (weatherCodeToCondition _ _) as [condition emoji]. simpl.
    apply Z.eqb_eq.
  - intros i e He.
    destruct (entries_spec_nth _ _ _ _ _ He) as (t & _ & -> & _).
    simpl. destruct (nth_error (hr_IsDay (Hourly data)) i) as [d |].
    + rewrite Z.eqb_eq. split; [intros ->; reflexivity | intros [= ->]; reflexivity].
    + split; discriminate.
Qed.

Lemma isDay_true_iff_one_witness :
  exists weather hourly,
    fetchWeather (GetResponse 200 (inr mixed_isDay_response))
    = Some (inr (weather, hourly))
    /\ wd_IsDay weather <> true
    /\ exists e0 e2, nth_error hourly 0 = Some e0 /\ hf_IsDay e0 = true
                     /\ nth_error hourly 2 = Some e2 /\ hf_IsDay e2 <> true.
Proof.
  destruct (isDay_true_iff_one mixed_isDay_response)
    as (weather & hourly & Hfetch & Hcur & Hhourly).
  exists weather, hourly. split; [exact Hfetch|]. split.
  - intros Htrue. apply Hcur in Htrue. discriminate Htrue.
  - vm_compute in Hfetch. injection Hfetch as _ <-.
    eexists _, _. split; [reflexivity|]. split.
    + apply (Hhourly 0%nat); reflexivity.
    + split; [reflexivity|].
      intros Htrue. apply (Hhourly 2%nat _ eq_refl) in Htrue. discriminate Htrue.
Defined.

(** ** Hour labels *)

Lemma digit_cases (d : Z) :
  0 <= d <= 9 ->
  d = 0 \/ d = 1 \/ d = 2 \/ d = 3 \/ d = 4 \/ d = 5 \/ d = 6 \/ d = 7 \/ d = 8 \/ d = 9.
Proof. lia. Qed.

Lemma isDigit_digitChar (d : Z) : 0 <= d <= 9 -> isDigit (digitChar d) = true.
Proof.
  intros Hd. destruct (digit_cases d Hd) as [-> | [-> | [-> | [-> | [-> | [-> | [-> | [-> | [-> | ->]]]]]]]]];
    reflexivity.
Qed.

Lemma digitVal_digitChar (d : Z) : 0 <= d <= 9 -> digitVal (digitChar d) = d.
Proof.
  intros Hd. destruct (digit_cases d Hd) as [-> | [-> | [-> | [-> | [-> | [-> | [-> | [-> | [-> | ->]]]]]]]]];
    reflexivity.
Qed.

Lemma getnum_pad2 (n : Z) (fixed : bool) (rest : string) :
  0 <= n <= 99 -> getnum (pad2 n ++ rest) fixed = Some (n, rest).
Proof.
  intros Hn. unfold pad2, getnum. cbn [append].
  pose proof (Z.div_mod n 10) as Hdm. pose proof (Z.mod_pos_bound n 10) as Hmod.
  assert (H1 : 0 <= n / 10 <= 9) by lia.
  assert (H0 : 0 <= n mod 10 <= 9) by lia.
  rewrite !isDigit_digitChar, !digitVal_digitChar by assumption.
  do 2 f_equal. lia.
Qed.

Lemma getyear_pad4 (n : Z) (rest : string) :
  0 <= n <= 9999 -> getyear (pad4 n ++ rest) = Some (n, rest).
Proof.
  intros Hn. unfold pad4, getyear. cbn [append].
  replace (n / 100) with (n / 10 / 10) by (now rewrite Z.div_div by lia).
  replace (n / 1000) with (n / 10 / 10 / 10) by (now rewrite !Z.div_div by lia).
  pose proof (Z.div_mod n 10). pose proof (Z.mod_pos_bound n 10).
  pose proof (Z.div_mod (n / 10) 10). pose proof (Z.mod_pos_bound (n / 10) 10).
  pose proof (Z.div_mod (n / 10 / 10) 10). pose proof (Z.mod_pos_bound (n / 10 / 10) 10).
  assert (Hd3 : 0 <= n / 10 / 10 / 10 <= 9) by lia.
  assert (Hd2 : 0 <= n / 10 / 10 mod 10 <= 9) by lia.
  assert (Hd1 : 0 <= n / 10 mod 10 <= 9) by lia.
  assert (Hd0 : 0 <= n mod 10 <= 9) by lia.
  rewrite !isDigit_digitChar, !digitVal_digitChar by assumption.
  cbn [andb]. do 2 f_equal. lia.
Qed.

Lemma append_nil_r_pad2 (n : Z) : pad2 n ++ "" = pad2 n.
Proof. reflexivity. Qed.

Lemma skip_literal (c : ascii) (rest : string) :
  skip (String c rest) c = Some rest.
Proof. unfold skip. now rewrite Ascii.eqb_refl. Qed.

(** A timestamp of the form [YYYY-MM-DDTHH:MM] with calendar fields in range
    parses to those fields. *)
Lemma time_Parse_timestamp (t : Time) :
  valid_time t -> time_Parse (timestamp t) = Some t.
Proof.
  destruct t as [year month day hour min].
  unfold valid_time, timestamp. cbn [t_year t_month t_day t_hour t_min].
  intros (Hy & Hm & Hd & Hh & Hmin).
  assert (Hd31 : daysIn month year <= 31)
    by (unfold daysIn; repeat match goal with |- context [if ?b then _ else _] => destruct b end; lia).
  unfold time_Parse.
  rewrite getyear_pad4 by lia. cbn [bind append]. rewrite skip_literal. cbn [bind].
  rewrite getnum_pad2 by lia. cbn [bind append].
  replace ((month <=? 0) || (12 <? month)) with false by (symmetry; apply orb_false_iff; lia).
  rewrite skip_literal. cbn [bind].
  rewrite getnum_pad2 by lia. cbn [bind append]. rewrite skip_literal. cbn [bind].
  rewrite getnum_pad2 by lia. cbn [bind append].
  replace ((hour <? 0) || (24 <=? hour)) with false by (symmetry; apply orb_false_iff; lia).
  rewrite skip_literal. cbn [bind].
  rewrite <- (append_nil_r_pad2 min).
  rewrite getnum_pad2 by lia. cbn [bind].
  replace ((min <? 0) || (60 <=? min)) with false by (symmetry; apply orb_false_iff; lia).
  cbn [String.eqb negb].
  replace ((day <? 1) || (daysIn month year <? day)) with false by (symmetry; apply orb_false_iff; lia).
  reflexivity.
Qed.

(** The hour of a parsed timestamp lies on the 24-hour clock. *)
Lemma time_Parse_hour_range (s : string) (t : Time) :
  time_Parse s = Some t -> 0 <= t_hour t <= 23.
Proof.
  unfold time_Parse, bind. intros H.
  repeat match type of H with
         | context [match ?x with _ => _ end] =>
             let E := fresh "E" in destruct x eqn:E; try discriminate H
         end.
  injection H as <-. cbn [t_hour].
  match goal with
  | E : (?hour <? 0) || (24 <=? ?hour) = false |- 0 <= ?hour <= 23 =>
      apply orb_false_iff in E; lia
  end.
Qed.

Lemma time_Format_hour_label (t : Time) :
  0 <= t_hour t <= 23 -> time_Format t = hour_label (t_hour t).
Proof.
  unfold time_Format. generalize (t_hour t) as hour. intros hour Hh.
  assert (Hcases : hour = 0 \/ hour = 1 \/ hour = 2 \/ hour = 3 \/ hour = 4 \/ hour = 5
                   \/ hour = 6 \/ hour = 7 \/ hour = 8 \/ hour = 9 \/ hour = 10
                   \/ hour = 11 \/ hour = 12 \/ hour = 13 \/ hour = 14 \/ hour = 15
                   \/ hour = 16 \/ hour = 17 \/ hour = 18 \/ hour = 19 \/ hour = 20
                   \/ hour = 21 \/ hour = 22 \/ hour = 23) by lia.
  repeat (destruct Hcases as [-> | Hcases]; [reflexivity|]).
  subst hour. reflexivity.
Qed.

Lemma hourDisplay_parsed (s : string) (t : Time) :
  time_Parse s = Some t -> hourDisplay s = hour_label (t_hour t).
Proof.
  intros Hp. unfold hourDisplay. rewrite Hp.
  apply time_Format_hour_label. exact (time_Parse_hour_range s t Hp).
Qed.

Lemma hourDisplay_unparsed (s : string) :
  time_Parse s = None -> hourDisplay s = s.
Proof. intros Hp. unfold hourDisplay. now rewrite Hp. Qed.

(** ** Binary64 rounding on rationals *)

(** *** Powers of two *)

Lemma pow2_pos (e : Z) : (0 < pow2 e)%Q.
Proof. unfold pow2. apply Qpower_0_lt. reflexivity. Qed.

Lemma pow2_add (a b : Z) : (pow2 (a + b) == pow2 a * pow2 b)%Q.
Proof. unfold pow2. apply Qpower_plus. discriminate. Qed.

Lemma pow2_le (a b : Z) : a <= b -> (pow2 a <= pow2 b)%Q.
Proof.
  intros Hab. unfold pow2. apply Qpower_le_compat_l; [exact Hab|]. discriminate.
Qed.

Lemma pow2_lt_inv (a b : Z) : (pow2 a < pow2 b)%Q -> a < b.
Proof.
  intros Hlt. destruct (Z_lt_le_dec a b) as [H | H]; [exact H|].
  apply pow2_le in H. lra.
Qed.

Lemma pow2_nonneg_Z (n : Z) : 0 <= n -> (pow2 n == inject_Z (2 ^ n))%Q.
Proof. intros Hn. unfold pow2. rewrite Zpower_Qpower by exact Hn. reflexivity. Qed.

Lemma log2_bounds_Q (a : Z) :
  0 < a -> (pow2 (Z.log2 a) <= inject_Z a /\ inject_Z a < 2 * pow2 (Z.log2 a))%Q.
Proof.
  intros Ha. destruct (Z.log2_spec a Ha) as [Hlo Hhi].
  pose proof (Z.log2_nonneg a) as Hnn.
  rewrite pow2_nonneg_Z by exact Hnn.
  replace (2 ^ Z.succ (Z.log2 a)) with (2 * 2 ^ Z.log2 a) in Hhi
    by (rewrite Z.pow_succ_r by exact Hnn; reflexivity).
  split.
  - rewrite <- Zle_Qle. exact Hlo.
  - change 2%Q with (inject_Z 2). rewrite <- inject_Z_mult, <- Zlt_Qlt. exact Hhi.
Qed.

(** [ilog2] is the binary exponent. *)
Lemma ilog2_spec (q : Q) :
  (0 < q)%Q -> (pow2 (ilog2 q) <= q /\ q < pow2 (ilog2 q + 1))%Q.
Proof.
  intros Hq. destruct q as [a b].
  assert (Ha : 0 < a) by (unfold Qlt in Hq; simpl in Hq; lia).
  unfold ilog2. cbn [Qnum Qden].
  set (l := Z.log2 a - Z.log2 (Z.pos b)).
  destruct (log2_bounds_Q a Ha) as [HA1 HA2].
  destruct (log2_bounds_Q (Z.pos b) eq_refl) as [HB1 HB2].
  assert (Hab : (inject_Z a == (a # b) * inject_Z (Z.pos b))%Q).
  { rewrite (Qmake_Qdiv a b). field. discriminate. }
  assert (HAB : (pow2 (Z.log2 a) == pow2 l * pow2 (Z.log2 (Z.pos b)))%Q).
  { rewrite <- pow2_add. unfold l. now replace (Z.log2 a - Z.log2 (Z.pos b) + Z.log2 (Z.pos b)) with (Z.log2 a) by lia. }
  assert (Hl1 : (pow2 (l + 1) == 2 * pow2 l)%Q).
  { rewrite pow2_add. change (pow2 1) with 2%Q. ring. }
  assert (Hl0 : (pow2 l == 2 * pow2 (l - 1))%Q).
  { replace l with ((l - 1) + 1) at 1 by lia. rewrite pow2_add. change (pow2 1) with 2%Q. ring. }
  pose proof (pow2_pos l) as Hpl. pose proof (pow2_pos (Z.log2 (Z.pos b))) as HpB.
  pose proof (pow2_pos (l - 1)) as Hpl1.
  generalize dependent (pow2 (Z.log2 a)). generalize dependent (pow2 (Z.log2 (Z.pos b))).
  generalize dependent (inject_Z a). generalize dependent (inject_Z (Z.pos b)).
  intros.
  destruct (Qle_bool (pow2 l) (a # b)) eqn:E.
  - apply Qle_bool_iff in E. split; [exact E|].
    rewrite Hl1. nra.
  - assert (E' : ((a # b) < pow2 l)%Q).
    { apply Qnot_le_lt. intros H. apply Qle_bool_iff in H. congruence. }
    replace (l - 1 + 1) with l by lia. split; [|exact E'].
    nra.
Qed.

(** *** Rounding to an integer and to 53 bits *)

Lemma round_half_even_err (r : Q) :
  (r - (1 # 2) <= inject_Z (round_half_even r) <= r + (1 # 2))%Q.
Proof.
  unfold round_half_even.
  pose proof (Qfloor_le r) as Hlo. pose proof (Qlt_floor r) as Hhi.
  rewrite inject_Z_plus in Hhi. change (inject_Z 1) with 1%Q in Hhi.
  destruct (Qcompare_spec (r - inject_Z (Qfloor r)) (1 # 2)) as [E | E | E].
  - destruct (Z.even (Qfloor r)); [| rewrite inject_Z_plus; change (inject_Z 1) with 1%Q]; lra.
  - lra.
  - rewrite inject_Z_plus. change (inject_Z 1) with 1%Q. lra.
Qed.

Lemma round_half_even_comp (r r' : Q) :
  r == r' -> round_half_even r = round_half_even r'.
Proof.
  intros H. unfold round_half_even. rewrite (Qfloor_comp r r' H).
  now rewrite H.
Qed.

Lemma round_half_even_Z (n : Z) : round_half_even (inject_Z n) = n.
Proof.
  unfold round_half_even. rewrite Qfloor_Z.
  destruct (Qcompare_spec (inject_Z n - inject_Z n) (1 # 2)) as [E | E | E];
    [lra | reflexivity | lra].
Qed.

Lemma round64_zero (q : Q) : q == 0 -> round64 q = 0%Q.
Proof. intros H. unfold round64. now rewrite (Qeq_eq_bool _ _ H). Qed.

Lemma round64_nonzero (q : Q) :
  ~ q == 0 ->
  round64 q
  = (inject_Z (round_half_even (q / pow2 (ilog2 (Qabs q) - 52)))
     * pow2 (ilog2 (Qabs q) - 52))%Q.
Proof.
  intros H. unfold round64.
  destruct (Qeq_bool q 0) eqn:E; [|reflexivity].
  apply Qeq_bool_iff in E. contradiction.
Qed.

Lemma pow2_succ (e : Z) : (pow2 (e + 1) == 2 * pow2 e)%Q.
Proof. rewrite pow2_add. change (pow2 1) with 2%Q. ring. Qed.

(** The rounding error is at most half a unit in the last place. *)
Lemma round64_err (q : Q) :
  ~ q == 0 -> (Qabs (round64 q - q) <= pow2 (ilog2 (Qabs q) - 53))%Q.
Proof.
  intros Hq. rewrite (round64_nonzero q Hq).
  set (e := ilog2 (Qabs q) - 52).
  replace (ilog2 (Qabs q) - 53) with (e - 1) by (unfold e; lia).
  pose proof (round_half_even_err (q / pow2 e)) as Hr.
  pose proof (pow2_pos e) as Hp. pose proof (pow2_pos (e - 1)) as Hp1.
  assert (He : (pow2 e == 2 * pow2 (e - 1))%Q).
  { rewrite <- pow2_succ. now replace (e - 1 + 1) with e by lia. }
  assert (Hx : (q / pow2 e * pow2 e == q)%Q) by (field; lra).
  apply Qabs_Qle_condition.
  generalize dependent (inject_Z (round_half_even (q / pow2 e))).
  generalize dependent (q / pow2 e)%Q.
  generalize dependent (pow2 e). generalize dependent (pow2 (e - 1)).
  intros. nra.
Qed.

Lemma Qabs_pos_nonzero (q : Q) : ~ q == 0 -> (0 < Qabs q)%Q.
Proof.
  intros Hq. apply Qabs_case; intros H.
  - destruct (Qlt_le_dec 0 q) as [Hlt | Hle]; [exact Hlt|].
    exfalso. apply Hq. lra.
  - destruct (Qlt_le_dec q 0) as [Hlt | Hle]; [lra|].
    exfalso. apply Hq. lra.
Qed.

Lemma pow2_m53 : (pow2 (-53) == ulp53)%Q.
Proof. reflexivity. Qed.

(** Relative form: at most [2^-53] of the magnitude. *)
Lemma round64_rel (q : Q) : (Qabs (round64 q - q) <= Qabs q * ulp53)%Q.
Proof.
  destruct (Qeq_dec q 0) as [Hz | Hnz].
  - rewrite (round64_zero q Hz), Hz. discriminate.
  - eapply Qle_trans; [apply (round64_err q Hnz)|].
    destruct (ilog2_spec (Qabs q) (Qabs_pos_nonzero q Hnz)) as [Hlo _].
    replace (ilog2 (Qabs q) - 53) with (ilog2 (Qabs q) + -53) by lia.
    rewrite pow2_add, pow2_m53.
    apply Qmult_le_compat_r; [exact Hlo | discriminate].
Qed.

(** Absolute form: below [2^k] the error is at most [2^(k-54)]. *)
Lemma round64_abs (q : Q) (k : Z) :
  (Qabs q < pow2 k)%Q -> (Qabs (round64 q - q) <= pow2 (k - 54))%Q.
Proof.
  intros Hk. destruct (Qeq_dec q 0) as [Hz | Hnz].
  - rewrite (round64_zero q Hz), Hz. apply Qlt_le_weak, (pow2_pos (k - 54)).
  - eapply Qle_trans; [apply (round64_err q Hnz)|].
    destruct (ilog2_spec (Qabs q) (Qabs_pos_nonzero q Hnz)) as [Hlo _].
    apply pow2_le.
    assert (ilog2 (Qabs q) < k) by (apply pow2_lt_inv; lra).
    lia.
Qed.

Lemma round64_nonneg (q : Q) : (0 <= q)%Q -> (0 <= round64 q)%Q.
Proof.
  intros Hq. pose proof (round64_rel q) as H.
  rewrite (Qabs_pos q Hq) in H. apply Qabs_Qle_condition in H.
  unfold ulp53 in H. lra.
Qed.

(** Integers of magnitude below [2^53] are binary64 values. *)
Lemma round64_int (n : Z) :
  Z.abs n < 2 ^ 53 -> (round64 (inject_Z n) == inject_Z n)%Q.
Proof.
  intros Hn. destruct (Z.eq_dec n 0) as [-> | Hnz]; [reflexivity|].
  assert (Hq : ~ inject_Z n == 0).
  { intros H. apply Hnz. unfold Qeq in H. simpl in H. lia. }
  rewrite (round64_nonzero _ Hq).
  set (e := ilog2 (Qabs (inject_Z n)) - 52).
  assert (He : e <= 0).
  { destruct (ilog2_spec _ (Qabs_pos_nonzero _ Hq)) as [Hlo _].
    assert (Hlt : (Qabs (inject_Z n) < pow2 53)%Q).
    { rewrite (pow2_nonneg_Z 53) by lia.
      change (Qabs (inject_Z n)) with (inject_Z (Z.abs n)).
      rewrite <- Zlt_Qlt. exact Hn. }
    assert (ilog2 (Qabs (inject_Z n)) < 53) by (apply pow2_lt_inv; lra).
    unfold e. lia. }
  assert (Hinv : (pow2 e * pow2 (- e) == 1)%Q).
  { rewrite <- pow2_add. now replace (e + - e) with 0 by lia. }
  pose proof (pow2_pos e) as Hpe.
  assert (Hm : (inject_Z n / pow2 e == inject_Z (n * 2 ^ (- e)))%Q).
  { rewrite inject_Z_mult, <- (pow2_nonneg_Z (- e)) by lia.
    unfold pow2 at 2. rewrite Qpower_opp. reflexivity. }
  rewrite (round_half_even_comp _ _ Hm), round_half_even_Z.
  rewrite inject_Z_mult, <- (pow2_nonneg_Z (- e)) by lia.
  rewrite <- Qmult_assoc, (Qmult_comm (pow2 (- e))), Hinv. ring.
Qed.

(** *** The compass index on rationals *)

Lemma Qfloor_between (q : Q) (n : Z) :
  (inject_Z n <= q)%Q -> (q < inject_Z (n + 1))%Q -> Qfloor q = n.
Proof.
  intros Hlo Hhi.
  pose proof (Qfloor_le q) as H1. pose proof (Qlt_floor q) as H2.
  assert (Ha : (inject_Z (Qfloor q) < inject_Z (n + 1))%Q) by lra.
  assert (Hb : (inject_Z n < inject_Z (Qfloor q + 1))%Q) by lra.
  rewrite <- Zlt_Qlt in Ha, Hb. lia.
Qed.

Lemma rat_to_int_floor (z : Q) : (0 <= z)%Q -> rat_to_int z = Qfloor z.
Proof.
  destruct z as [a b]. unfold Qle, rat_to_int, Qfloor. simpl. intros Ha.
  apply Z.quot_div_nonneg; lia.
Qed.

Lemma rat_to_int_nonneg (z : Q) : (0 <= z)%Q -> 0 <= rat_to_int z.
Proof.
  destruct z as [a b]. unfold Qle, rat_to_int. simpl. intros Ha.
  apply Z.quot_pos; lia.
Qed.

Lemma div_22_5 (q : Q) : (q / (45 # 2) == q * (2 # 45))%Q.
Proof. reflexivity. Qed.

(** For non-negative degrees every value is non-negative, and so is the
    remainder. *)
Lemma rat_compassIndex_nonneg (degrees : Z) :
  0 <= degrees -> 0 <= rat_compassIndex degrees < 16.
Proof.
  intros Hd. unfold rat_compassIndex. apply Z.rem_bound_pos; [|lia].
  apply rat_to_int_nonneg.
  unfold rat_add, rat_div, rat_of_int.
  assert (H0 : (0 <= round64 (inject_Z degrees))%Q).
  { apply round64_nonneg. change 0%Q with (inject_Z 0). now rewrite <- Zle_Qle. }
  assert (H1 : (0 <= round64 (round64 (inject_Z degrees) / (45 # 2)))%Q).
  { apply round64_nonneg. rewrite div_22_5. lra. }
  apply round64_nonneg. lra.
Qed.

(** Below [2^50] the two rounding errors together stay under 1/128, and the
    exact value [degrees / 22.5 + 1/2] is at least 1/90 away from an integer. *)
Lemma rat_compassIndex_formula (degrees : Z) :
  0 <= degrees < 2 ^ 50 -> rat_compassIndex degrees = compass_spec degrees.
Proof.
  intros Hd. unfold rat_compassIndex, compass_spec, round_half_up.
  unfold rat_add, rat_div, rat_of_int.
  set (n := (4 * degrees + 45) / 90).
  pose proof (Z.div_mod (4 * degrees + 45) 90 ltac:(lia)) as Hdm.
  pose proof (Z.mod_pos_bound (4 * degrees + 45) 90 ltac:(lia)) as Hr.
  fold n in Hdm. set (r := (4 * degrees + 45) mod 90) in *.
  assert (Hodd : r <> 0).
  { intros Hz. rewrite Hz in Hdm. lia. }
  assert (Hn : 0 <= n) by (apply Z.div_pos; lia).
  assert (HD : (inject_Z (4 * degrees + 45) == inject_Z (90 * n + r))%Q) by now rewrite Hdm at 1.
  rewrite !inject_Z_plus, !inject_Z_mult in HD.
  assert (HR : (1 <= inject_Z r <= 89)%Q).
  { split; [change 1%Q with (inject_Z 1) | change 89%Q with (inject_Z 89)];
      rewrite <- Zle_Qle; lia. }
  assert (HDb : (0 <= inject_Z degrees < inject_Z (2 ^ 50))%Q).
  { split; [change 0%Q with (inject_Z 0); rewrite <- Zle_Qle | rewrite <- Zlt_Qlt]; lia. }
  change (inject_Z (2 ^ 50)) with (1125899906842624%Q) in HDb.
  change (inject_Z 4) with 4%Q in HD. change (inject_Z 45) with 45%Q in HD.
  change (inject_Z 90) with 90%Q in HD.
  pose proof (round64_int degrees ltac:(lia)) as Hf.
  set (f := round64 (inject_Z degrees)) in *.
  assert (Hq1 : (Qabs (f / (45 # 2)) < pow2 46)%Q).
  { rewrite div_22_5, Hf. apply Qabs_Qlt_condition.
    change (pow2 46) with (70368744177664%Q). lra. }
  pose proof (round64_abs _ _ Hq1) as Hx.
  set (x := round64 (f / (45 # 2))) in *.
  change (pow2 (46 - 54)) with (1 # 256)%Q in Hx.
  rewrite div_22_5, Hf in Hx. apply Qabs_diff_Qle_condition in Hx.
  assert (Hq2 : (Qabs (x + (1 # 2)) < pow2 46)%Q).
  { apply Qabs_Qlt_condition. change (pow2 46) with (70368744177664%Q). lra. }
  pose proof (round64_abs _ _ Hq2) as Hz.
  set (z := round64 (x + (1 # 2))) in *.
  change (pow2 (46 - 54)) with (1 # 256)%Q in Hz.
  apply Qabs_diff_Qle_condition in Hz.
  assert (Hzn : (inject_Z n <= z /\ z < inject_Z (n + 1))%Q).
  { rewrite inject_Z_plus. change (inject_Z 1) with 1%Q. lra. }
  assert (Hz0 : (0 <= z)%Q).
  { assert (0 <= inject_Z n)%Q by (change 0%Q with (inject_Z 0); now rewrite <- Zle_Qle).
    lra. }
  rewrite (rat_to_int_floor z Hz0).
  rewrite (Qfloor_between z n (proj1 Hzn) (proj2 Hzn)).
  assert (Hspec : Qfloor (inject_Z degrees / (45 # 2) + (1 # 2)) = n).
  { apply Qfloor_between; rewrite div_22_5; [| rewrite inject_Z_plus; change (inject_Z 1) with 1%Q]; lra. }
  rewrite Hspec. apply Z.rem_mod_nonneg; lia.
Qed.

Lemma compass_magnitudeb_sound (v : Q) :
  compass_magnitudeb v = true -> compass_magnitude v.
Proof.
  unfold compass_magnitudeb, compass_magnitude. intros H.
  apply orb_true_iff in H. destruct H as [H | H].
  - left. now apply Qeq_bool_iff.
  - right. apply andb_true_iff in H. destruct H as [H1 H2].
    apply Qle_bool_iff in H1, H2. split; assumption.
Qed.

Lemma range_forallb (P : Z -> bool) (lo : Z) (n : nat) :
  forallb P (range lo n) = true ->
  forall d, lo <= d < lo + Z.of_nat n -> P d = true.
Proof.
  intros Hall d Hd. rewrite forallb_forall in Hall. apply Hall.
  unfold range. apply in_map_iff. exists (Z.to_nat (d - lo)). split; [lia|].
  apply in_seq. lia.
Qed.

Lemma round64_bounds_pos (q lo hi : Q) :
  (0 <= lo)%Q -> (lo <= q)%Q -> (q <= hi)%Q ->
  (lo * (1 - ulp53) <= round64 q /\ round64 q <= hi * (1 + ulp53))%Q.
Proof.
  intros H0 Hlo Hhi. pose proof (round64_rel q) as H.
  rewrite (Qabs_pos q) in H by lra. apply Qabs_Qle_condition in H.
  unfold ulp53 in *. nra.
Qed.

Lemma round64_bounds_neg (q lo hi : Q) :
  (hi <= 0)%Q -> (lo <= q)%Q -> (q <= hi)%Q ->
  (lo * (1 + ulp53) <= round64 q /\ round64 q <= hi * (1 - ulp53))%Q.
Proof.
  intros H0 Hlo Hhi. pose proof (round64_rel q) as H.
  rewrite (Qabs_neg q) in H by lra. apply Qabs_Qle_condition in H.
  unfold ulp53 in *. nra.
Qed.

Lemma rat_to_int_abs (z : Q) (N : Z) :
  (Qabs z <= inject_Z N)%Q -> Z.abs (rat_to_int z) <= N.
Proof.
  destruct z as [a b]. unfold Qle, rat_to_int. simpl. intros Ha.
  rewrite <- (Z.quot_abs a (Z.pos b)) by lia.
  change (Z.abs (Z.pos b)) with (Z.pos b).
  rewrite Z.quot_div_nonneg by lia.
  apply Z.div_le_upper_bound; lia.
Qed.

Lemma magnitude_pos (v : Q) :
  (1 # 128 <= v)%Q -> (v <= 18446744073709551616)%Q -> compass_magnitude v.
Proof. intros Hlo Hhi. right. rewrite (Qabs_pos v) by lra. split; assumption. Qed.

Lemma magnitude_neg (v : Q) :
  (v <= - (1 # 128))%Q -> (- (18446744073709551616) <= v)%Q -> compass_magnitude v.
Proof.
  intros Hlo Hhi. right. rewrite (Qabs_neg v) by lra.
  change (pow2 (-7)) with (1 # 128)%Q. change (pow2 64) with 18446744073709551616%Q.
  split; lra.
Qed.

Lemma compass_values_check_small : forallb compass_values_check (range (-23) 24) = true.
Proof. vm_compute. reflexivity. Qed.

(** For every [int], the values of the rational computation are zero or
    of magnitude from [2^-7] to [2^64], the sum [x + 0.5] is not zero, and
    the truncation is an [int]. *)
Lemma compass_values_bounded (degrees : Z) :
  is_int degrees ->
  let f := rat_of_int degrees in
  let x := rat_div f (45 # 2) in
  let z := rat_add x (1 # 2) in
  compass_magnitude f /\ compass_magnitude x
  /\ ~ (x + (1 # 2) == 0)%Q /\ compass_magnitude (x + (1 # 2))
  /\ compass_magnitude z /\ is_int (rat_to_int z).
Proof.
  intros [Hmin Hmax]. unfold is_int, int_min, int_max in *. cbv zeta.
  unfold rat_add, rat_div, rat_of_int.
  destruct (Z_lt_le_dec 0 degrees) as [Hpos | Hle];
    [| destruct (Z_lt_le_dec degrees (-23)) as [Hneg | Hsmall]].
  - (* positive degrees: every value is positive *)
    assert (HD : (1 <= inject_Z degrees <= 9223372036854775808)%Q).
    { split; [change 1%Q with (inject_Z 1) | change 9223372036854775808%Q with (inject_Z (2 ^ 63))];
        rewrite <- Zle_Qle; lia. }
    destruct (round64_bounds_pos (inject_Z degrees) 1 9223372036854775808) as [Hf1 Hf2];
      try lra.
    set (f := round64 (inject_Z degrees)) in *. unfold ulp53 in *.
    destruct (round64_bounds_pos (f / (45 # 2)) (1 # 23) 576460752303423488) as [Hx1 Hx2];
      try (rewrite div_22_5; lra); try lra.
    set (x := round64 (f / (45 # 2))) in *. unfold ulp53 in *.
    destruct (round64_bounds_pos (x + (1 # 2)) (1 # 2) 1152921504606846976) as [Hz1 Hz2];
      try lra.
    set (z := round64 (x + (1 # 2))) in *. unfold ulp53 in *.
    repeat split; try (apply magnitude_pos; lra); try lra.
    + pose proof (rat_to_int_nonneg z ltac:(lra)). lia.
    + assert (Z.abs (rat_to_int z) <= 2 ^ 62); [|lia].
      apply rat_to_int_abs. rewrite (Qabs_pos z) by lra.
      change (inject_Z (2 ^ 62)) with 4611686018427387904%Q. lra.
  - (* degrees below -23: every value is below -1/2 *)
    assert (HD : (- (9223372036854775808) <= inject_Z degrees <= - (24))%Q).
    { split; [change (- (9223372036854775808))%Q with (inject_Z (- 2 ^ 63))
             | change (- (24))%Q with (inject_Z (-24))];
        rewrite <- Zle_Qle; lia. }
    destruct (round64_bounds_neg (inject_Z degrees) (- (9223372036854775808)) (- (24)))
      as [Hf1 Hf2]; try lra.
    set (f := round64 (inject_Z degrees)) in *. unfold ulp53 in *.
    destruct (round64_bounds_neg (f / (45 # 2)) (- (576460752303423488)) (- (106 # 100)))
      as [Hx1 Hx2]; try (rewrite div_22_5; lra); try lra.
    set (x := round64 (f / (45 # 2))) in *. unfold ulp53 in *.
    destruct (round64_bounds_neg (x + (1 # 2)) (- (1152921504606846976)) (- (1 # 2)))
      as [Hz1 Hz2]; try lra.
    set (z := round64 (x + (1 # 2))) in *. unfold ulp53 in *.
    repeat split; try (apply magnitude_neg; lra); try lra.
    + assert (Z.abs (rat_to_int z) <= 2 ^ 62); [|lia].
      apply rat_to_int_abs. rewrite (Qabs_neg z) by lra.
      change (inject_Z (2 ^ 62)) with 4611686018427387904%Q. lra.
    + assert (Z.abs (rat_to_int z) <= 2 ^ 62); [|lia].
      apply rat_to_int_abs. rewrite (Qabs_neg z) by lra.
      change (inject_Z (2 ^ 62)) with 4611686018427387904%Q. lra.
  - (* the 24 values from -23 to 0, by evaluation *)
    pose proof (range_forallb _ _ _ compass_values_check_small degrees ltac:(lia)) as H.
    unfold compass_values_check, rat_add, rat_div, rat_of_int in H.
    cbv zeta in H.
    repeat (apply andb_true_iff in H; destruct H as [H ?]).
    repeat split; try (now apply compass_magnitudeb_sound);
      unfold int_min, int_max in *; try lia.
    intros Hz. apply Qeq_bool_iff in Hz.
    match goal with Hn : negb _ = true |- _ => rewrite Hz in Hn; discriminate Hn end.
Qed.

(** *** The rounding is well defined on rationals up to equality *)

Lemma ilog2_unique (q : Q) (l : Z) :
  (0 < q)%Q -> (pow2 l <= q)%Q -> (q < pow2 (l + 1))%Q -> ilog2 q = l.
Proof.
  intros Hq Hlo Hhi. destruct (ilog2_spec q Hq) as [Hlo' Hhi'].
  assert (l < ilog2 q + 1) by (apply pow2_lt_inv; lra).
  assert (ilog2 q < l + 1) by (apply pow2_lt_inv; lra).
  lia.
Qed.

(** [round64] gives a value with a significand of 53 bits. *)
Lemma round64_significand (q : Q) :
  ~ q == 0 ->
  exists m e : Z,
    round64 q = (inject_Z m * pow2 e)%Q
    /\ 2 ^ 52 <= Z.abs m <= 2 ^ 53
    /\ (Qabs (inject_Z m * pow2 e - q) <= pow2 (e - 1))%Q.
Proof.
  intros Hq.
  exists (round_half_even (q / pow2 (ilog2 (Qabs q) - 52))), (ilog2 (Qabs q) - 52).
  split; [apply (round64_nonzero q Hq)|]. split.
  - destruct (ilog2_spec _ (Qabs_pos_nonzero q Hq)) as [Hlo Hhi].
    set (l := ilog2 (Qabs q)) in *.
    pose proof (round_half_even_err (q / pow2 (l - 52))) as Hr.
    set (m := round_half_even (q / pow2 (l - 52))) in *.
    pose proof (pow2_pos (l - 52)) as Hp.
    assert (H52 : (pow2 l == 4503599627370496 * pow2 (l - 52))%Q).
    { replace l with (52 + (l - 52)) at 1 by lia. rewrite pow2_add. reflexivity. }
    assert (H53 : (pow2 (l + 1) == 9007199254740992 * pow2 (l - 52))%Q).
    { replace (l + 1) with (53 + (l - 52)) by lia. rewrite pow2_add. reflexivity. }
    assert (Hx : (q / pow2 (l - 52) * pow2 (l - 52) == q)%Q) by (field; lra).
    assert (Hm : (inject_Z (2 ^ 52 - 1) < inject_Z (Z.abs m)
                  /\ inject_Z (Z.abs m) < inject_Z (2 ^ 53 + 1))%Q).
    { change (inject_Z (2 ^ 52 - 1)) with 4503599627370495%Q.
      change (inject_Z (2 ^ 53 + 1)) with 9007199254740993%Q.
      change (inject_Z (Z.abs m)) with (Qabs (inject_Z m)).
      remember (inject_Z m) as M. remember (q / pow2 (l - 52))%Q as X.
      remember (pow2 (l - 52)) as P. remember (pow2 l) as P0.
      remember (pow2 (l + 1)) as P1.
      revert Hlo Hhi. apply (Qabs_case q); intros Hs Hlo Hhi.
      - assert (4503599627370496 <= X /\ X < 9007199254740992)%Q as [? ?] by (split; nra).
        rewrite (Qabs_pos M) by lra. lra.
      - assert (X <= - (4503599627370496) /\ - (9007199254740992) < X)%Q as [? ?] by (split; nra).
        rewrite (Qabs_neg M) by lra. lra. }
    destruct Hm as [Hm1 Hm2]. rewrite <- Zlt_Qlt in Hm1, Hm2. lia.
  - rewrite <- (round64_nonzero q Hq).
    replace (ilog2 (Qabs q) - 52 - 1) with (ilog2 (Qabs q) - 53) by lia.
    apply (round64_err q Hq).
Qed.

Lemma ilog2_comp (q q' : Q) : (0 < q)%Q -> q == q' -> ilog2 q = ilog2 q'.
Proof.
  intros Hq E. symmetry. destruct (ilog2_spec q Hq) as [Hlo Hhi].
  apply ilog2_unique; rewrite <- E; assumption.
Qed.

Lemma round64_comp (q q' : Q) : q == q' -> (round64 q == round64 q')%Q.
Proof.
  intros E. destruct (Qeq_dec q 0) as [Hz | Hnz].
  - rewrite (round64_zero q Hz), (round64_zero q'); [reflexivity | now rewrite <- E].
  - assert (Hnz' : ~ q' == 0) by (now rewrite <- E).
    rewrite (round64_nonzero q Hnz), (round64_nonzero q' Hnz').
    assert (El : ilog2 (Qabs q) = ilog2 (Qabs q')).
    { apply ilog2_comp; [now apply Qabs_pos_nonzero | now rewrite E]. }
    rewrite El.
    assert (Em : (q / pow2 (ilog2 (Qabs q') - 52) == q' / pow2 (ilog2 (Qabs q') - 52))%Q)
      by now rewrite E.
    rewrite (round_half_even_comp _ _ Em). reflexivity.
Qed.

Lemma round_half_even_spec (r : Q) :
  let k := round_half_even r in
  (r - (1 # 2) < inject_Z k /\ inject_Z k < r + (1 # 2))%Q
  \/ ((inject_Z k == r - (1 # 2) \/ inject_Z k == r + (1 # 2))%Q /\ Z.even k = true).
Proof.
  unfold round_half_even.
  pose proof (Qfloor_le r) as Hlo. pose proof (Qlt_floor r) as Hhi.
  rewrite inject_Z_plus in Hhi. change (inject_Z 1) with 1%Q in Hhi.
  destruct (Qcompare_spec (r - inject_Z (Qfloor r)) (1 # 2)) as [E | E | E].
  - right. destruct (Z.even (Qfloor r)) eqn:Hev.
    + split; [left; lra | exact Hev].
    + split; [right; rewrite inject_Z_plus; change (inject_Z 1) with 1%Q; lra|].
      rewrite Z.even_add, Hev. reflexivity.
  - left. lra.
  - left. rewrite inject_Z_plus. change (inject_Z 1) with 1%Q. lra.
Qed.

Lemma round_half_even_unique (r : Q) (k : Z) :
  (r - (1 # 2) < inject_Z k /\ inject_Z k < r + (1 # 2))%Q
  \/ ((inject_Z k == r - (1 # 2) \/ inject_Z k == r + (1 # 2))%Q /\ Z.even k = true) ->
  round_half_even r = k.
Proof.
  intros Hk. pose proof (round_half_even_spec r) as Hs. cbv zeta in Hs.
  set (k' := round_half_even r) in *.
  assert (Hclose : (inject_Z (k' - k) < inject_Z 2 /\ inject_Z (- 2) < inject_Z (k' - k))%Q).
  { unfold Z.sub. rewrite !inject_Z_plus, !inject_Z_opp.
    change (inject_Z 2) with 2%Q. change (inject_Z (-2)) with (- (2))%Q.
    destruct Hk as [Hk | [[Hk | Hk] _]]; destruct Hs as [Hs | [[Hs | Hs] _]]; split; lra. }
  destruct Hclose as [H1 H2]. rewrite <- Zlt_Qlt in H1, H2.
  assert (Hd : k' - k = 0 \/ k' - k = 1 \/ k' - k = -1) by lia.
  destruct Hd as [Hd | Hd]; [lia|].
  exfalso.
  assert (Hdq : (inject_Z k' - inject_Z k == 1 \/ inject_Z k' - inject_Z k == - (1))%Q).
  { destruct Hd as [Hd | Hd]; [left | right];
      unfold Qminus; rewrite <- inject_Z_opp, <- inject_Z_plus;
      fold (Z.sub k' k); rewrite Hd; reflexivity. }
  destruct Hk as [Hk | [Hk Hev]]; destruct Hs as [Hs | [Hs Hev']];
    try (destruct Hdq; lra);
    try (destruct Hk; destruct Hdq; lra);
    try (destruct Hs; destruct Hdq; lra).
  assert (Z.even k' = negb (Z.even k)).
  { replace k' with (k + (k' - k)) by lia. rewrite Z.even_add.
    destruct Hd as [-> | ->]; destruct (Z.even k); reflexivity. }
  rewrite Hev, Hev' in *. discriminate.
Qed.

Lemma round_half_even_opp (r : Q) : round_half_even (- r) = - round_half_even r.
Proof.
  apply round_half_even_unique.
  pose proof (round_half_even_spec r) as Hs. cbv zeta in Hs.
  rewrite inject_Z_opp.
  destruct Hs as [Hs | [[Hs | Hs] Hev]].
  - left. lra.
  - right. split; [right; lra|]. now rewrite Z.even_opp.
  - right. split; [left; lra|]. now rewrite Z.even_opp.
Qed.

Lemma round64_opp (q : Q) : (round64 (- q) == - round64 q)%Q.
Proof.
  destruct (Qeq_dec q 0) as [Hz | Hnz].
  - rewrite (round64_zero q Hz), (round64_zero (- q)); [reflexivity | lra].
  - assert (Hnz' : ~ - q == 0) by (intros H; apply Hnz; lra).
    rewrite (round64_nonzero q Hnz), (round64_nonzero (- q) Hnz').
    assert (El : ilog2 (Qabs (- q)) = ilog2 (Qabs q)).
    { apply ilog2_comp; [now apply Qabs_pos_nonzero | apply Qabs_opp]. }
    rewrite El.
    assert (Em : (- q / pow2 (ilog2 (Qabs q) - 52) == - (q / pow2 (ilog2 (Qabs q) - 52)))%Q).
    { pose proof (pow2_pos (ilog2 (Qabs q) - 52)). field. lra. }
    rewrite (round_half_even_comp _ _ Em), round_half_even_opp, inject_Z_opp. ring.
Qed.

Lemma rat_to_int_opp (z : Q) : rat_to_int (- z)%Q = - rat_to_int z.
Proof. destruct z as [a b]. unfold rat_to_int. simpl. apply Z.quot_opp_l. lia. Qed.

Lemma rat_to_int_comp (z z' : Q) : z == z' -> rat_to_int z = rat_to_int z'.
Proof.
  intros E. destruct (Qlt_le_dec z 0) as [Hneg | Hpos].
  - assert (H : rat_to_int (- z)%Q = rat_to_int (- z')%Q).
    { rewrite !rat_to_int_floor by (try rewrite <- E; lra).
      apply Qfloor_comp. now rewrite E. }
    rewrite !rat_to_int_opp in H. lia.
  - rewrite !rat_to_int_floor by (try rewrite <- E; lra).
    now apply Qfloor_comp.
Qed.

Lemma round64_at_exponent (r : Q) (e : Z) :
  (pow2 (e + 52) <= r)%Q -> (r < pow2 (e + 53))%Q ->
  round64 r = (inject_Z (round_half_even (r / pow2 e)) * pow2 e)%Q.
Proof.
  intros Hlo Hhi. pose proof (pow2_pos (e + 52)) as Hp.
  assert (Hr : ~ r == 0) by lra.
  rewrite (round64_nonzero r Hr).
  assert (Hl : ilog2 (Qabs r) = e + 52).
  { apply ilog2_unique.
    - apply Qabs_pos_nonzero. exact Hr.
    - rewrite Qabs_pos by lra. exact Hlo.
    - rewrite Qabs_pos by lra. now replace (e + 52 + 1) with (e + 53) by lia. }
  rewrite Hl. now replace (e + 52 - 52) with e by lia.
Qed.

(** A value with a significand below [2^53] is a binary64 value. *)
Lemma round64_exact (m e : Z) :
  Z.abs m < 2 ^ 53 -> (round64 (inject_Z m * pow2 e) == inject_Z m * pow2 e)%Q.
Proof.
  intros Hm. pose proof (pow2_pos e) as Hpe.
  destruct (Z.eq_dec m 0) as [-> | Hnz].
  - rewrite round64_zero; [ring_simplify; reflexivity | ring].
  - set (q := (inject_Z m * pow2 e)%Q).
    assert (Habs : (Qabs q == inject_Z (Z.abs m) * pow2 e)%Q).
    { unfold q. rewrite Qabs_Qmult, (Qabs_pos (pow2 e)) by lra. reflexivity. }
    assert (Hm1 : (1 <= inject_Z (Z.abs m))%Q).
    { change 1%Q with (inject_Z 1). rewrite <- Zle_Qle. lia. }
    assert (Hq : ~ q == 0).
    { intros Hz. rewrite Hz in Habs. change (Qabs 0) with 0%Q in Habs. nra. }
    rewrite (round64_nonzero q Hq).
    set (e' := ilog2 (Qabs q) - 52).
    assert (He' : e' <= e).
    { destruct (ilog2_spec _ (Qabs_pos_nonzero _ Hq)) as [Hlo _].
      assert (Hlt : (Qabs q < pow2 (53 + e))%Q).
      { rewrite Habs, pow2_add. apply Qmult_lt_compat_r; [exact Hpe|].
        rewrite (pow2_nonneg_Z 53) by lia. rewrite <- Zlt_Qlt. exact Hm. }
      assert (ilog2 (Qabs q) < 53 + e) by (apply pow2_lt_inv; lra).
      unfold e'. lia. }
    pose proof (pow2_pos e') as Hpe'.
    assert (Hsplit : (pow2 e == pow2 (e - e') * pow2 e')%Q).
    { rewrite <- pow2_add. now replace (e - e' + e') with e by lia. }
    assert (Hmant : (q / pow2 e' == inject_Z (m * 2 ^ (e - e')))%Q).
    { unfold q. rewrite inject_Z_mult, <- (pow2_nonneg_Z (e - e')) by lia.
      rewrite Hsplit. field. lra. }
    rewrite (round_half_even_comp _ _ Hmant), round_half_even_Z.
    unfold q. rewrite inject_Z_mult, <- (pow2_nonneg_Z (e - e')) by lia.
    rewrite Hsplit. ring.
Qed.

(** Adding [0.5] to a binary64 value [m * 2^e] of exponent -7 or -6 that lies
    strictly between [n - 1/2] and [n + 1/2] gives, after rounding, a value
    between [n] and [n + 1]. *)
Lemma add_half_rounds_inside (e m n : Z) :
  e = -7 \/ e = -6 ->
  0 < m <= 2 ^ 53 ->
  (inject_Z n + (1 # 400) <= inject_Z m * pow2 e + (1 # 2))%Q ->
  (inject_Z m * pow2 e + (1 # 2) <= inject_Z n + 1 - (1 # 400))%Q ->
  (inject_Z n <= round64 (inject_Z m * pow2 e + (1 # 2))
   /\ round64 (inject_Z m * pow2 e + (1 # 2)) < inject_Z n + 1)%Q.
Proof.
  intros He Hm Hlo Hhi.
  set (h := 2 ^ (- e - 1)).
  assert (Hh : (inject_Z h * pow2 e == 1 # 2)%Q).
  { unfold h. destruct He as [-> | ->]; reflexivity. }
  assert (Hsum : (inject_Z m * pow2 e + (1 # 2) == inject_Z (m + h) * pow2 e)%Q).
  { rewrite inject_Z_plus, <- Hh. ring. }
  assert (Hhpos : 0 < h) by (unfold h; destruct He as [-> | ->]; reflexivity).
  destruct (Z_lt_le_dec (m + h) (2 ^ 53)) as [Hsmall | Hbig].
  - (* the sum is a binary64 value *)
    assert (Hex : (round64 (inject_Z m * pow2 e + (1 # 2))
                   == inject_Z m * pow2 e + (1 # 2))%Q).
    { rewrite (round64_comp _ _ Hsum), Hsum. apply round64_exact. lia. }
    rewrite Hex. split; lra.
  - (* the sum passes the power of two [2^(53+e)] *)
    set (q2 := (inject_Z m * pow2 e + (1 # 2))%Q) in *.
    assert (HM : (9007199254740992 <= inject_Z (m + h))%Q).
    { change 9007199254740992%Q with (inject_Z (2 ^ 53)). now rewrite <- Zle_Qle. }
    assert (Hm' : (inject_Z m <= 9007199254740992)%Q).
    { change 9007199254740992%Q with (inject_Z (2 ^ 53)). rewrite <- Zle_Qle. lia. }
    pose proof (pow2_pos e) as Hpe.
    assert (Hq2lo : (pow2 (e + 1 + 52) <= q2)%Q).
    { replace (e + 1 + 52) with (53 + e) by lia. rewrite pow2_add, Hsum.
      change (pow2 53) with 9007199254740992%Q. apply Qmult_le_compat_r; lra. }
    assert (Hq2hi : (q2 < pow2 (e + 1 + 53))%Q).
    { replace (e + 1 + 53) with (54 + e) by lia. rewrite pow2_add.
      change (pow2 54) with 18014398509481984%Q. unfold q2.
      destruct He as [-> | ->];
        [change (pow2 (-7)) with (1 # 128)%Q in * | change (pow2 (-6)) with (1 # 64)%Q in *];
        lra. }
    rewrite (round64_at_exponent q2 (e + 1) Hq2lo Hq2hi).
    pose proof (round_half_even_err (q2 / pow2 (e + 1))) as Herr.
    set (m2 := round_half_even (q2 / pow2 (e + 1))) in *.
    assert (Hdiv : (q2 / pow2 (e + 1) * pow2 (e + 1) == q2)%Q).
    { pose proof (pow2_pos (e + 1)). field. lra. }
    pose proof (pow2_pos (e + 1)) as Hp1.
    assert (Ht : (4503599627370496 <= q2 / pow2 (e + 1))%Q).
    { replace (e + 1 + 52) with (52 + (e + 1)) in Hq2lo by lia.
      rewrite pow2_add in Hq2lo. change (pow2 52) with 4503599627370496%Q in Hq2lo.
      apply (Qmult_le_r _ _ (pow2 (e + 1))); [assumption|].
      rewrite Hdiv. exact Hq2lo. }
    set (t := (q2 / pow2 (e + 1))%Q) in *. clearbody t.
    assert (Hm2 : 2 ^ 52 <= m2).
    { assert (H : (inject_Z (2 ^ 52 - 1) < inject_Z m2)%Q).
      { change (inject_Z (2 ^ 52 - 1)) with 4503599627370495%Q. lra. }
      rewrite <- Zlt_Qlt in H. lia. }
    assert (Hm2q : (4503599627370496 <= inject_Z m2)%Q).
    { change 4503599627370496%Q with (inject_Z (2 ^ 52)). now rewrite <- Zle_Qle. }
    (* [n] is the power of two *)
    assert (Hn : inject_Z n == 4503599627370496 * pow2 (e + 1)
                 /\ (q2 <= inject_Z n + (1 # 2))%Q).
    { assert (HP : exists P : Z, (inject_Z P == 4503599627370496 * pow2 (e + 1))%Q).
      { destruct He as [-> | ->]; [exists (2 ^ 46) | exists (2 ^ 47)]; reflexivity. }
      destruct HP as [P HP].
      assert (Hq2P : (inject_Z P <= q2 /\ q2 <= inject_Z P + (1 # 2))%Q).
      { rewrite HP.
        assert (Hq2def : (q2 == inject_Z m * pow2 e + (1 # 2))%Q) by reflexivity.
        assert (Hps : (pow2 (e + 1) == 2 * pow2 e)%Q) by apply pow2_succ.
        rewrite Hps.
        assert (Ha : (9007199254740992 * pow2 e <= inject_Z (m + h) * pow2 e)%Q)
          by (apply Qmult_le_compat_r; lra).
        assert (Hb : (inject_Z m * pow2 e <= 9007199254740992 * pow2 e)%Q)
          by (apply Qmult_le_compat_r; lra).
        split; [rewrite Hsum | rewrite Hq2def]; lra. }
      assert (H1 : (inject_Z n < inject_Z (P + 1))%Q).
      { rewrite inject_Z_plus. change (inject_Z 1) with 1%Q. lra. }
      assert (H2 : (inject_Z P < inject_Z (n + 1))%Q).
      { rewrite inject_Z_plus. change (inject_Z 1) with 1%Q. lra. }
      rewrite <- Zlt_Qlt in H1, H2. assert (n = P) by lia. subst n.
      split; [exact HP | apply Hq2P]. }
    destruct Hn as [Hn Hq2n].
    assert (Hp1v : (pow2 (e + 1) <= 1 # 32)%Q).
    { destruct He as [-> | ->]; [change (pow2 (-7 + 1)) with (1 # 64)%Q
                               | change (pow2 (-6 + 1)) with (1 # 32)%Q]; lra. }
    split.
    + rewrite Hn. apply Qmult_le_compat_r; lra.
    + assert (inject_Z m2 * pow2 (e + 1) <= q2 + (1 # 2) * pow2 (e + 1))%Q by nra.
      lra.
Qed.

(** From [2^50] up to [45 * 2^46] the quotient has exponent -7 or -6 and
    the sum is either exact or falls just above a power of two. *)
Lemma rat_compassIndex_formula_high (degrees : Z) :
  2 ^ 50 <= degrees < 45 * 2 ^ 46 -> rat_compassIndex degrees = compass_spec degrees.
Proof.
  intros Hd. unfold rat_compassIndex, compass_spec, round_half_up.
  unfold rat_add, rat_div, rat_of_int.
  set (n := (4 * degrees + 45) / 90).
  pose proof (Z.div_mod (4 * degrees + 45) 90 ltac:(lia)) as Hdm.
  pose proof (Z.mod_pos_bound (4 * degrees + 45) 90 ltac:(lia)) as Hr.
  fold n in Hdm. set (r := (4 * degrees + 45) mod 90) in *.
  assert (Hodd : r <> 0).
  { intros Hz. rewrite Hz in Hdm. lia. }
  assert (Hn : 0 <= n) by (apply Z.div_pos; lia).
  assert (HD : (inject_Z (4 * degrees + 45) == inject_Z (90 * n + r))%Q) by now rewrite Hdm at 1.
  rewrite !inject_Z_plus, !inject_Z_mult in HD.
  assert (HR : (1 <= inject_Z r <= 89)%Q).
  { split; [change 1%Q with (inject_Z 1) | change 89%Q with (inject_Z 89)];
      rewrite <- Zle_Qle; lia. }
  assert (HDb : (inject_Z (2 ^ 50) <= inject_Z degrees < inject_Z (45 * 2 ^ 46))%Q).
  { split; [rewrite <- Zle_Qle | rewrite <- Zlt_Qlt]; lia. }
  change (inject_Z (2 ^ 50)) with (1125899906842624%Q) in HDb.
  change (inject_Z (45 * 2 ^ 46)) with (3166593487994880%Q) in HDb.
  change (inject_Z 4) with 4%Q in HD. change (inject_Z 45) with 45%Q in HD.
  change (inject_Z 90) with 90%Q in HD.
  pose proof (round64_int degrees ltac:(lia)) as Hf.
  set (f := round64 (inject_Z degrees)) in *.
  assert (Hq1 : (f / (45 # 2) == inject_Z degrees * (2 # 45))%Q)
    by (rewrite div_22_5, Hf; reflexivity).
  set (q1 := (f / (45 # 2))%Q) in *.
  assert (Hinside : exists e m,
             (e = -7 \/ e = -6) /\ 0 < m <= 2 ^ 53
             /\ round64 q1 = (inject_Z m * pow2 e)%Q
             /\ (q1 - (1 # 128) <= inject_Z m * pow2 e <= q1 + (1 # 128))%Q).
  { destruct (Qlt_le_dec q1 (pow2 46)) as [Hlt | Hge].
    - exists (-7), (round_half_even (q1 / pow2 (-7))).
      assert (Hlo : (pow2 (-7 + 52) <= q1)%Q).
      { change (pow2 (-7 + 52)) with 35184372088832%Q. lra. }
      assert (Ht : (q1 / pow2 (-7) == q1 * 128)%Q) by reflexivity.
      pose proof (round_half_even_err (q1 / pow2 (-7))) as [Herr1 Herr2].
      set (t := (q1 / pow2 (-7))%Q) in *.
      change (pow2 46) with 70368744177664%Q in Hlt.
      change (pow2 (-7 + 52)) with 35184372088832%Q in Hlo.
      split; [left; reflexivity|]. split.
      + assert (H : (inject_Z 0 < inject_Z (round_half_even t)
                     /\ inject_Z (round_half_even t) < inject_Z (2 ^ 53 + 1))%Q).
        { change (inject_Z 0) with 0%Q.
          change (inject_Z (2 ^ 53 + 1)) with 9007199254740993%Q. split; lra. }
        destruct H as [H1 H2]. rewrite <- Zlt_Qlt in H1, H2. lia.
      + split; [apply round64_at_exponent; [exact Hlo | exact Hlt]|].
        change (pow2 (-7)) with (1 # 128)%Q. split; lra.
    - exists (-6), (round_half_even (q1 / pow2 (-6))).
      assert (Hhi : (q1 < pow2 (-6 + 53))%Q).
      { change (pow2 (-6 + 53)) with 140737488355328%Q. lra. }
      assert (Ht : (q1 / pow2 (-6) == q1 * 64)%Q) by reflexivity.
      pose proof (round_half_even_err (q1 / pow2 (-6))) as [Herr1 Herr2].
      set (t := (q1 / pow2 (-6))%Q) in *.
      change (pow2 46) with 70368744177664%Q in Hge.
      change (pow2 (-6 + 53)) with 140737488355328%Q in Hhi.
      split; [right; reflexivity|]. split.
      + assert (H : (inject_Z 0 < inject_Z (round_half_even t)
                     /\ inject_Z (round_half_even t) < inject_Z (2 ^ 53 + 1))%Q).
        { change (inject_Z 0) with 0%Q.
          change (inject_Z (2 ^ 53 + 1)) with 9007199254740993%Q. split; lra. }
        destruct H as [H1 H2]. rewrite <- Zlt_Qlt in H1, H2. lia.
      + split; [apply round64_at_exponent; [exact Hge | exact Hhi]|].
        change (pow2 (-6)) with (1 # 64)%Q. split; lra. }
  destruct Hinside as (e & m & He & Hm & Hy & Hyb).
  rewrite Hy.
  destruct (add_half_rounds_inside e m n He Hm) as [Hz1 Hz2]; [lra | lra |].
  set (z := round64 (inject_Z m * pow2 e + (1 # 2))) in *.
  assert (Hz0 : (0 <= z)%Q).
  { assert (0 <= inject_Z n)%Q by (change 0%Q with (inject_Z 0); now rewrite <- Zle_Qle).
    lra. }
  rewrite (rat_to_int_floor z Hz0).
  rewrite (Qfloor_between z n); [| exact Hz1 | rewrite inject_Z_plus; exact Hz2].
  assert (Hspec : Qfloor (inject_Z degrees / (45 # 2) + (1 # 2)) = n).
  { apply Qfloor_between; rewrite div_22_5;
      [| rewrite inject_Z_plus; change (inject_Z 1) with 1%Q]; lra. }
  rewrite Hspec. apply Z.rem_mod_nonneg; lia.
Qed.

Lemma formula_holds_at_the_end : forallb formula_holds (range (45 * 2 ^ 46) 11) = true.
Proof. vm_compute. reflexivity. Qed.

(** The index of the rational computation is [round(degrees / 22.5) mod 16]
    up to 45 * 2^46 + 10. *)
Lemma rat_compassIndex_round_half_up (degrees : Z) :
  0 <= degrees <= 3166593487994890 -> rat_compassIndex degrees = compass_spec degrees.
Proof.
  intros Hd.
  destruct (Z_lt_le_dec degrees (2 ^ 50)) as [Hlow | Hmid];
    [apply rat_compassIndex_formula; lia|].
  destruct (Z_lt_le_dec degrees (45 * 2 ^ 46)) as [Hhigh | Hend];
    [apply rat_compassIndex_formula_high; lia|].
  pose proof (range_forallb _ _ _ formula_holds_at_the_end degrees ltac:(lia)) as H.
  unfold formula_holds in H. now apply Z.eqb_eq.
Qed.

(** ** The bit-level operations compute the rounded rational operations *)

(** *** Shifts and rounding of a significand *)

Lemma digits2_pos_bounds (p : positive) :
  2 ^ (Z.pos (digits2_pos p) - 1) <= Z.pos p < 2 ^ Z.pos (digits2_pos p).
Proof.
  induction p as [p IH | p IH |]; cbn [digits2_pos].
  - rewrite Pos2Z.inj_succ.
    replace (Z.succ (Z.pos (digits2_pos p)) - 1) with (Z.succ (Z.pos (digits2_pos p) - 1)) by lia.
    rewrite !Z.pow_succ_r by lia. lia.
  - rewrite Pos2Z.inj_succ.
    replace (Z.succ (Z.pos (digits2_pos p)) - 1) with (Z.succ (Z.pos (digits2_pos p) - 1)) by lia.
    rewrite !Z.pow_succ_r by lia. lia.
  - simpl. lia.
Qed.

Lemma inbetween_comp (m : Z) (l : location) (v v' : Q) :
  v' == v -> inbetween m l v -> inbetween m l v'.
Proof. intros E. destruct l as [| []]; cbn [inbetween]; rewrite E; auto. Qed.

Lemma inbetween_bounds (m : Z) (l : location) (v : Q) :
  inbetween m l v -> (inject_Z m <= v /\ v < inject_Z m + 1)%Q.
Proof. destruct l as [| []]; simpl; intros H; lra. Qed.

Lemma loc_of_shr_record_of_loc (m : Z) (l : location) :
  loc_of_shr_record (shr_record_of_loc m l) = l /\ shr_m (shr_record_of_loc m l) = m.
Proof. destruct l as [| []]; split; reflexivity. Qed.

Lemma inject_Z_double (p : positive) : (inject_Z (Z.pos p~0) == 2 * inject_Z (Z.pos p))%Q.
Proof. change 2%Q with (inject_Z 2). rewrite <- inject_Z_mult. reflexivity. Qed.

Lemma inject_Z_double1 (p : positive) : (inject_Z (Z.pos p~1) == 2 * inject_Z (Z.pos p) + 1)%Q.
Proof.
  change 1%Q with (inject_Z 1). change 2%Q with (inject_Z 2).
  rewrite <- inject_Z_mult, <- inject_Z_plus. reflexivity.
Qed.

(** One shift to the right halves the value and keeps track of its place. *)
Lemma shr_1_spec (mrs : shr_record) (v : Q) :
  0 <= shr_m mrs ->
  inbetween (shr_m mrs) (loc_of_shr_record mrs) v ->
  0 <= shr_m (shr_1 mrs)
  /\ inbetween (shr_m (shr_1 mrs)) (loc_of_shr_record (shr_1 mrs)) (v / 2).
Proof.
  destruct mrs as [m r s]. cbn [shr_m]. intros Hm H.
  assert (Hv : (v / 2 == v * (1 # 2))%Q) by reflexivity.
  destruct m as [| p | p]; [| | lia].
  - destruct r, s; cbn [shr_1 orb shr_m loc_of_shr_record inbetween] in *;
      (split; [lia|]); rewrite Hv; change (inject_Z 0) with 0%Q in *; lra.
  - destruct p as [p | p |].
    + pose proof (inject_Z_double1 p) as Hp.
      destruct r, s; cbn [shr_1 orb shr_m loc_of_shr_record inbetween] in *;
        (split; [lia|]); rewrite Hv; lra.
    + pose proof (inject_Z_double p) as Hp.
      destruct r, s; cbn [shr_1 orb shr_m loc_of_shr_record inbetween] in *;
        (split; [lia|]); rewrite Hv; lra.
    + destruct r, s; cbn [shr_1 orb shr_m loc_of_shr_record inbetween] in *;
        (split; [lia|]); rewrite Hv;
        change (inject_Z 1) with 1%Q in *; change (inject_Z 0) with 0%Q; lra.
Qed.

Lemma iter_pos_shr_1_spec (p : positive) :
  forall (mrs : shr_record) (v : Q),
    0 <= shr_m mrs ->
    inbetween (shr_m mrs) (loc_of_shr_record mrs) v ->
    0 <= shr_m (iter_pos shr_1 p mrs)
    /\ inbetween (shr_m (iter_pos shr_1 p mrs))
         (loc_of_shr_record (iter_pos shr_1 p mrs)) (v / pow2 (Z.pos p)).
Proof.
  induction p as [p IH | p IH |]; intros mrs v Hm H; cbn [iter_pos].
  - destruct (shr_1_spec mrs v Hm H) as [Hm1 H1].
    destruct (IH _ _ Hm1 H1) as [Hm2 H2].
    destruct (IH _ _ Hm2 H2) as [Hm3 H3].
    split; [exact Hm3|].
    assert (E : (v / pow2 (Z.pos p~1) == v / 2 / pow2 (Z.pos p) / pow2 (Z.pos p))%Q).
    { replace (Z.pos p~1) with (1 + (Z.pos p + Z.pos p)) by lia.
      rewrite !pow2_add. change (pow2 1) with 2%Q.
      pose proof (pow2_pos (Z.pos p)). field. lra. }
    apply (inbetween_comp _ _ _ _ E). exact H3.
  - destruct (IH _ _ Hm H) as [Hm2 H2].
    destruct (IH _ _ Hm2 H2) as [Hm3 H3].
    split; [exact Hm3|].
    assert (E : (v / pow2 (Z.pos p~0) == v / pow2 (Z.pos p) / pow2 (Z.pos p))%Q).
    { replace (Z.pos p~0) with (Z.pos p + Z.pos p) by lia.
      rewrite !pow2_add.
      pose proof (pow2_pos (Z.pos p)). field. lra. }
    apply (inbetween_comp _ _ _ _ E). exact H3.
  - apply shr_1_spec; assumption.
Qed.

Lemma round_nearest_even_spec (m : Z) (l : location) (v : Q) :
  inbetween m l v -> round_nearest_even m l = round_half_even v.
Proof.
  intros H. pose proof (inbetween_bounds m l v H) as [Hlo Hhi].
  unfold round_half_even.
  assert (Hf : Qfloor v = m).
  { apply Qfloor_between; [exact Hlo|]. rewrite inject_Z_plus. exact Hhi. }
  rewrite Hf.
  destruct (Qcompare_spec (v - inject_Z m) (1 # 2)) as [E | E | E];
    destruct l as [| []]; cbn [inbetween round_nearest_even] in *;
    try reflexivity; try lra.
Qed.

Lemma shr_spec (mrs : shr_record) (e n : Z) (v : Q) :
  0 <= n -> 0 <= shr_m mrs ->
  inbetween (shr_m mrs) (loc_of_shr_record mrs) v ->
  snd (shr mrs e n) = e + n
  /\ 0 <= shr_m (fst (shr mrs e n))
  /\ inbetween (shr_m (fst (shr mrs e n))) (loc_of_shr_record (fst (shr mrs e n)))
       (v / pow2 n).
Proof.
  intros Hn Hm H. destruct n as [| p | p]; [| | lia]; cbn [shr fst snd].
  - split; [lia|]. split; [exact Hm|].
    apply (inbetween_comp _ _ v); [|exact H].
    change (pow2 0) with 1%Q. field.
  - split; [reflexivity|]. apply iter_pos_shr_1_spec; assumption.
Qed.

Lemma Zdigits2_unique (m k : Z) :
  0 < m -> 2 ^ (k - 1) <= m < 2 ^ k -> Zdigits2 m = k.
Proof.
  intros Hm [Hlo Hhi]. destruct m as [| p | p]; try lia. cbn [Zdigits2].
  pose proof (digits2_pos_bounds p) as [Hlo' Hhi'].
  assert (0 < k).
  { destruct (Z_lt_le_dec 0 k) as [H | H]; [exact H|].
    assert (2 ^ k <= 2 ^ 0) by (apply Z.pow_le_mono_r; lia). simpl in *. lia. }
  assert (Z.pos (digits2_pos p) - 1 < k).
  { apply (Z.pow_lt_mono_r_iff 2); lia. }
  assert (k - 1 < Z.pos (digits2_pos p)).
  { apply (Z.pow_lt_mono_r_iff 2); lia. }
  lia.
Qed.

Lemma Zdigits2_bounds (m : Z) :
  0 < m -> 2 ^ (Zdigits2 m - 1) <= m < 2 ^ Zdigits2 m.
Proof.
  intros Hm. destruct m as [| p | p]; try lia. apply digits2_pos_bounds.
Qed.

Lemma fexp_normal (e : Z) : -1021 <= e -> fexp 53 1024 e = e - 53.
Proof. intros He. unfold fexp, emin. lia. Qed.

(** [binary_round_aux] on a significand of at least 53 digits whose value
    is in the normal range: the result is finite, has 53 digits and denotes
    the rounded rational. *)
Lemma binary_round_aux_normal (sx : bool) (mx ex : Z) (lx : location) (v : Q) :
  0 < mx -> inbetween mx lx v ->
  53 <= Zdigits2 mx -> -1021 <= Zdigits2 mx + ex <= 1023 ->
  exists (m : positive) (e : Z),
    binary_round_aux 53 1024 sx mx ex lx = S754_finite sx m e
    /\ Z.pos (digits2_pos m) = 53
    /\ Zdigits2 mx + ex - 53 <= e <= Zdigits2 mx + ex - 52
    /\ (inject_Z (Z.pos m) * pow2 e == round64 (v * pow2 ex))%Q.
Proof.
  intros Hmx Hv HD He.
  pose proof (Zdigits2_bounds mx Hmx) as [HDlo HDhi].
  set (D := Zdigits2 mx) in *.
  unfold binary_round_aux, shr_fexp. fold D.
  rewrite (fexp_normal (D + ex)) by lia.
  replace (D + ex - 53 - ex) with (D - 53) by lia.
  destruct (loc_of_shr_record_of_loc mx lx) as [Hl0 Hm0].
  destruct (shr_spec (shr_record_of_loc mx lx) ex (D - 53) v) as (He' & Hm' & Hv');
    [lia | rewrite Hm0; lia | rewrite Hl0, Hm0; exact Hv |].
  destruct (shr (shr_record_of_loc mx lx) ex (D - 53)) as [mrs' e'].
  cbn [fst snd] in *. subst e'.
  set (n := D - 53) in *.
  set (v' := (v / pow2 n)%Q) in *.
  (* the shifted value lies in [2^52, 2^53) *)
  pose proof (inbetween_bounds _ _ _ Hv) as [Hvlo Hvhi].
  pose proof (pow2_pos n) as Hpn.
  assert (Hmxlo : (pow2 (D - 1) <= inject_Z mx)%Q).
  { rewrite pow2_nonneg_Z by lia. now rewrite <- Zle_Qle. }
  assert (Hmxhi : (inject_Z mx + 1 <= pow2 D)%Q).
  { rewrite pow2_nonneg_Z by lia. change 1%Q with (inject_Z 1).
    rewrite <- inject_Z_plus, <- Zle_Qle. lia. }
  assert (HD1 : (pow2 (D - 1) == pow2 52 * pow2 n)%Q).
  { rewrite <- pow2_add. unfold n. now replace (52 + (D - 53)) with (D - 1) by lia. }
  assert (HD2 : (pow2 D == pow2 53 * pow2 n)%Q).
  { rewrite <- pow2_add. unfold n. now replace (53 + (D - 53)) with D by lia. }
  assert (Hvv : (v' * pow2 n == v)%Q) by (unfold v'; field; lra).
  assert (Hv'b : (pow2 52 <= v' /\ v' < pow2 53)%Q).
  { change (pow2 52) with 4503599627370496%Q in *.
    change (pow2 53) with 9007199254740992%Q in *. split; nra. }
  (* rounding *)
  rewrite (round_nearest_even_spec _ _ _ Hv').
  pose proof (round_half_even_err v') as Herr.
  pose proof (inbetween_bounds _ _ _ Hv') as [Hm'lo Hm'hi].
  set (m1 := round_half_even v') in *.
  assert (Hm1 : 2 ^ 52 <= m1 <= 2 ^ 53).
  { assert (H : (inject_Z (2 ^ 52 - 1) < inject_Z m1 /\ inject_Z m1 < inject_Z (2 ^ 53 + 1))%Q).
    { change (inject_Z (2 ^ 52 - 1)) with 4503599627370495%Q.
      change (inject_Z (2 ^ 53 + 1)) with 9007199254740993%Q.
      change (pow2 52) with 4503599627370496%Q in *.
      change (pow2 53) with 9007199254740992%Q in *. lra. }
    destruct H as [H1 H2]. rewrite <- Zlt_Qlt in H1, H2. lia. }
  (* the value of the result *)
  assert (Hval : (inject_Z m1 * pow2 (ex + n) == round64 (v * pow2 ex))%Q).
  { rewrite (round64_at_exponent (v * pow2 ex) (ex + n)).
    - assert (E : (v * pow2 ex / pow2 (ex + n) == v')%Q).
      { unfold v'. rewrite pow2_add. pose proof (pow2_pos ex). field. lra. }
      rewrite (round_half_even_comp _ _ E). reflexivity.
    - replace (ex + n + 52) with (52 + n + ex) by lia. rewrite !pow2_add.
      pose proof (pow2_pos ex).
      apply Qmult_le_compat_r; [|lra]. rewrite <- Hvv.
      apply Qmult_le_compat_r; lra.
    - replace (ex + n + 53) with (53 + n + ex) by lia. rewrite !pow2_add.
      pose proof (pow2_pos ex).
      apply Qmult_lt_compat_r; [lra|]. rewrite <- Hvv.
      apply Qmult_lt_compat_r; lra. }
  destruct (Z.eq_dec m1 (2 ^ 53)) as [Hcarry | Hnocarry].
  - (* the significand was rounded up to 2^53 *)
    rewrite Hcarry in *. change (Zdigits2 (2 ^ 53)) with 54.
    rewrite (fexp_normal (54 + (ex + n))) by (unfold n; lia).
    replace (54 + (ex + n) - 53 - (ex + n)) with 1 by lia.
    cbn [shr_record_of_loc shr iter_pos shr_1 shr_m Z.pow Z.pow_pos Pos.iter Z.mul Pos.mul].
    replace (ex + n + 1 <=? 1024 - 53) with true by (symmetry; apply Z.leb_le; unfold n; lia).
    eexists _, _. split; [reflexivity|]. split; [reflexivity|].
    split; [unfold n; lia|].
    rewrite <- Hval. rewrite pow2_add. change (pow2 1) with 2%Q.
    change (inject_Z (2 ^ 53)) with 9007199254740992%Q.
    change (inject_Z (Z.pos 4503599627370496)) with 4503599627370496%Q. ring.
  - assert (Hd1 : Zdigits2 m1 = 53) by (apply Zdigits2_unique; simpl; lia).
    rewrite Hd1.
    rewrite (fexp_normal (53 + (ex + n))) by (unfold n; lia).
    replace (53 + (ex + n) - 53 - (ex + n)) with 0 by lia.
    cbn [shr_record_of_loc shr shr_m].
    destruct m1 as [| p1 | p1]; try lia.
    replace (ex + n <=? 1024 - 53) with true by (symmetry; apply Z.leb_le; unfold n; lia).
    exists p1, (ex + n). split; [reflexivity|]. split; [exact Hd1|].
    split; [unfold n; lia | exact Hval].
Qed.

(** *** Conversion from an integer, division and sum *)

Lemma Vf_neg (m : positive) (e : Z) : (Vf true m e == - Vf false m e)%Q.
Proof.
  unfold Vf. change (Z.neg m) with (- Z.pos m). rewrite inject_Z_opp. ring.
Qed.

Lemma pos_iter_xO (mx d : positive) :
  Z.pos (Pos.iter xO mx d) = Z.pos mx * 2 ^ Z.pos d.
Proof.
  induction d as [| d IH] using Pos.peano_ind.
  - simpl. lia.
  - rewrite Pos.iter_succ, Pos2Z.inj_succ, Z.pow_succ_r by lia.
    rewrite Pos2Z.inj_xO, IH. lia.
Qed.

Lemma shl_align_spec (mx : positive) (ex ex' : Z) :
  snd (shl_align mx ex ex') = Z.min ex ex'
  /\ Z.pos (fst (shl_align mx ex ex')) = Z.pos mx * 2 ^ (ex - Z.min ex ex').
Proof.
  unfold shl_align. destruct (ex' - ex) as [| p | p] eqn:E; cbn [fst snd].
  - replace (Z.min ex ex') with ex by lia. rewrite Z.sub_diag. simpl. lia.
  - replace (Z.min ex ex') with ex by lia. rewrite Z.sub_diag. simpl. lia.
  - replace (Z.min ex ex') with ex' by lia. split; [reflexivity|].
    rewrite pos_iter_xO. f_equal. f_equal. lia.
Qed.

Lemma mul_pow2_value (m k e : Z) :
  0 <= k -> (inject_Z (m * 2 ^ k) * pow2 (e - k) == inject_Z m * pow2 e)%Q.
Proof.
  intros Hk. rewrite inject_Z_mult, <- (pow2_nonneg_Z k) by exact Hk.
  rewrite <- Qmult_assoc, <- pow2_add. now replace (k + (e - k)) with e by lia.
Qed.

Lemma Zdigits2_mul_pow2 (m k : Z) :
  0 < m -> 0 <= k -> Zdigits2 (m * 2 ^ k) = Zdigits2 m + k.
Proof.
  intros Hm Hk. pose proof (Zdigits2_bounds m Hm) as [Hlo Hhi].
  assert (HD : 0 < Zdigits2 m) by (destruct m; simpl; lia).
  assert (0 < 2 ^ k) by (apply Z.pow_pos_nonneg; lia).
  apply Zdigits2_unique; [lia|].
  replace (Zdigits2 m + k - 1) with (Zdigits2 m - 1 + k) by lia.
  rewrite !Z.pow_add_r by lia. split; nia.
Qed.

Lemma binary_round_normal (sx : bool) (mx : positive) (ex : Z) :
  -1021 <= Zdigits2 (Z.pos mx) + ex <= 1023 ->
  exists (m : positive) (e : Z),
    binary_round 53 1024 sx mx ex = S754_finite sx m e
    /\ Z.pos (digits2_pos m) = 53
    /\ Zdigits2 (Z.pos mx) + ex - 53 <= e <= Zdigits2 (Z.pos mx) + ex - 52
    /\ (inject_Z (Z.pos m) * pow2 e == round64 (inject_Z (Z.pos mx) * pow2 ex))%Q.
Proof.
  intros He. unfold binary_round.
  change (Z.pos (digits2_pos mx)) with (Zdigits2 (Z.pos mx)).
  set (D := Zdigits2 (Z.pos mx)) in *.
  assert (HD : 0 < D) by (unfold D; simpl; lia).
  rewrite (fexp_normal (D + ex)) by lia.
  destruct (shl_align_spec mx ex (D + ex - 53)) as [Hez Hmz].
  destruct (shl_align mx ex (D + ex - 53)) as [mz ez]. cbn [fst snd] in *.
  assert (Hk : 0 <= ex - ez) by lia.
  assert (Hdz : Zdigits2 (Z.pos mz) = D + (ex - ez)).
  { rewrite Hmz. rewrite <- Hez. apply Zdigits2_mul_pow2; lia. }
  destruct (binary_round_aux_normal sx (Z.pos mz) ez loc_Exact (inject_Z (Z.pos mz)))
    as (m & e & Hres & Hdig & Hexp & Hval);
    [lia | reflexivity | lia | lia |].
  exists m, e. split; [exact Hres|]. split; [exact Hdig|]. split; [lia|].
  rewrite Hval. apply round64_comp.
  rewrite Hmz, <- Hez.
  replace ez with (ex - (ex - ez)) at 2 by lia.
  apply mul_pow2_value. exact Hk.
Qed.

Lemma binary_normalize_normal (M e : Z) :
  M <> 0 -> -1021 <= Zdigits2 M + e <= 1023 ->
  exists (m : positive) (e' : Z),
    binary_normalize 53 1024 M e false = S754_finite (M <? 0) m e'
    /\ Z.pos (digits2_pos m) = 53
    /\ Zdigits2 M + e - 53 <= e' <= Zdigits2 M + e - 52
    /\ (Vf (M <? 0) m e' == round64 (inject_Z M * pow2 e))%Q.
Proof.
  intros HM He. destruct M as [| p | p]; [contradiction | |]; cbn [binary_normalize Z.ltb Z.compare].
  - destruct (binary_round_normal false p e He) as (m & e' & H1 & H2 & H3 & H4).
    exists m, e'. auto.
  - destruct (binary_round_normal true p e He) as (m & e' & H1 & H2 & H3 & H4).
    exists m, e'. split; [exact H1|]. split; [exact H2|]. split; [exact H3|].
    rewrite Vf_neg. unfold Vf. rewrite H4.
    change (Z.neg p) with (- Z.pos p). rewrite inject_Z_opp, <- round64_opp.
    apply round64_comp. ring.
Qed.

Lemma digits_from_magnitude (M e a b : Z) :
  M <> 0 ->
  (pow2 a <= Qabs (inject_Z M * pow2 e))%Q -> (Qabs (inject_Z M * pow2 e) < pow2 b)%Q ->
  a < Zdigits2 M + e <= b.
Proof.
  intros HM Hlo Hhi.
  assert (Habs : (Qabs (inject_Z M * pow2 e) == inject_Z (Z.abs M) * pow2 e)%Q).
  { rewrite Qabs_Qmult. rewrite (Qabs_pos (pow2 e)) by (apply Qlt_le_weak, pow2_pos).
    reflexivity. }
  rewrite Habs in Hlo, Hhi.
  assert (Hd : Zdigits2 M = Zdigits2 (Z.abs M)) by (destruct M; reflexivity).
  pose proof (Zdigits2_bounds (Z.abs M) ltac:(lia)) as [Hdlo Hdhi].
  rewrite <- Hd in Hdlo, Hdhi. set (D := Zdigits2 M) in *.
  assert (HD : 0 < D) by (unfold D; destruct M; simpl; lia).
  pose proof (pow2_pos e) as Hpe.
  assert (H1 : (pow2 (D - 1 + e) <= inject_Z (Z.abs M) * pow2 e)%Q).
  { rewrite pow2_add. apply Qmult_le_compat_r; [|lra].
    rewrite pow2_nonneg_Z by lia. now rewrite <- Zle_Qle. }
  assert (H2 : (inject_Z (Z.abs M) * pow2 e < pow2 (D + e))%Q).
  { rewrite pow2_add. apply Qmult_lt_compat_r; [lra|].
    rewrite pow2_nonneg_Z by lia. now rewrite <- Zlt_Qlt. }
  assert (a < D + e) by (apply pow2_lt_inv; lra).
  assert (D - 1 + e < b) by (apply pow2_lt_inv; lra).
  lia.
Qed.

(** The place of a quotient [q + k / nb] from the remainder [k]. *)
Lemma new_location_spec (nb k q : Z) :
  0 < nb -> 0 <= k < nb ->
  inbetween q (new_location nb k) (inject_Z q + inject_Z k / inject_Z nb).
Proof.
  intros Hnb Hk.
  assert (HN : (0 < inject_Z nb)%Q) by (change 0%Q with (inject_Z 0); now rewrite <- Zlt_Qlt).
  assert (Hx : (inject_Z k / inject_Z nb * inject_Z nb == inject_Z k)%Q) by (field; lra).
  assert (HK : (0 <= inject_Z k)%Q) by (change 0%Q with (inject_Z 0); rewrite <- Zle_Qle; lia).
  set (x := (inject_Z k / inject_Z nb)%Q) in *. clearbody x.
  assert (Hcmp : forall c : Z, (inject_Z (2 * k + c) == 2 * inject_Z k + inject_Z c)%Q).
  { intros c. rewrite inject_Z_plus, inject_Z_mult. reflexivity. }
  assert (Hzero : k = 0 -> x == 0).
  { intros ->. change (inject_Z 0) with 0%Q in Hx.
    destruct (Qmult_integral _ _ Hx) as [H | H]; [exact H | lra]. }
  assert (Hle : k <> 0 -> (1 <= inject_Z k /\ inject_Z k + 1 <= inject_Z nb)%Q).
  { intros Hk0. change 1%Q with (inject_Z 1).
    rewrite <- inject_Z_plus, <- !Zle_Qle. lia. }
  unfold new_location, new_location_even, new_location_odd.
  destruct (Z.even nb) eqn:Hev; cbv beta;
    (destruct (Z.eqb_spec k 0) as [Hk0 | Hk0];
     [specialize (Hzero Hk0); cbn [inbetween]; lra | destruct (Hle Hk0) as [HK1 HKN]]).
  - destruct (Z.compare_spec (2 * k) nb) as [E | E | E]; cbn [inbetween].
    + assert (EQ : (2 * inject_Z k == inject_Z nb)%Q).
      { rewrite <- E, inject_Z_mult. reflexivity. }
      assert (Hhalf : ((x - (1 # 2)) * inject_Z nb == 0)%Q) by (ring_simplify; lra).
      destruct (Qmult_integral _ _ Hhalf) as [H | H]; lra.
    + assert (EQ : (2 * inject_Z k + 1 <= inject_Z nb)%Q).
      { change 1%Q with (inject_Z 1). rewrite <- Hcmp, <- Zle_Qle. lia. }
      split; nra.
    + assert (EQ : (inject_Z nb + 1 <= 2 * inject_Z k)%Q).
      { rewrite <- (Qplus_0_r (2 * inject_Z k)). change 0%Q with (inject_Z 0).
        rewrite <- Hcmp. change 1%Q with (inject_Z 1).
        rewrite <- inject_Z_plus, <- Zle_Qle. lia. }
      split; nra.
  - assert (Hodd : 2 * k <> nb).
    { intros <-. rewrite Z.even_mul in Hev. discriminate. }
    destruct (Z.compare_spec (2 * k + 1) nb) as [E | E | E]; cbn [inbetween].
    + assert (EQ : (2 * inject_Z k + 1 <= inject_Z nb)%Q).
      { change 1%Q with (inject_Z 1). rewrite <- Hcmp, <- Zle_Qle. lia. }
      split; nra.
    + assert (EQ : (2 * inject_Z k + 1 <= inject_Z nb)%Q).
      { change 1%Q with (inject_Z 1). rewrite <- Hcmp, <- Zle_Qle. lia. }
      split; nra.
    + assert (EQ : (inject_Z nb + 1 <= 2 * inject_Z k)%Q).
      { rewrite <- (Qplus_0_r (2 * inject_Z k)). change 0%Q with (inject_Z 0).
        rewrite <- Hcmp. change 1%Q with (inject_Z 1).
        rewrite <- inject_Z_plus, <- Zle_Qle. lia. }
      split; nra.
Qed.

(** Division of a finite value by a positive finite value *)
Lemma SFdiv_normal (sx : bool) (mx my : positive) (ex ey : Z) :
  Z.pos (digits2_pos mx) = 53 -> Z.pos (digits2_pos my) = 53 ->
  -1021 <= ex - ey <= 1022 ->
  exists (m : positive) (e : Z),
    SFdiv 53 1024 (S754_finite sx mx ex) (S754_finite false my ey) = S754_finite sx m e
    /\ Z.pos (digits2_pos m) = 53
    /\ (Vf sx m e == round64 (Vf sx mx ex / Vf false my ey))%Q.
Proof.
  intros Hdx Hdy He.
  pose proof (digits2_pos_bounds mx) as [Hxlo Hxhi].
  pose proof (digits2_pos_bounds my) as [Hylo Hyhi].
  rewrite Hdx in Hxlo, Hxhi. rewrite Hdy in Hylo, Hyhi.
  change (2 ^ (53 - 1)) with 4503599627370496 in *.
  change (2 ^ 53) with 9007199254740992 in *.
  unfold SFdiv, SFdiv_core_binary. cbn [Zdigits2]. rewrite Hdx, Hdy.
  rewrite (fexp_normal (53 + ex - (53 + ey))) by lia.
  replace (Z.min (53 + ex - (53 + ey) - 53) (ex - ey)) with (ex - ey - 53) by lia.
  replace (ex - ey - (ex - ey - 53)) with 53 by lia.
  rewrite Z.shiftl_mul_pow2 by lia.
  change (2 ^ 53) with 9007199254740992.
  pose proof (Z_div_mod (Z.pos mx * 9007199254740992) (Z.pos my) ltac:(lia)) as Hdm.
  destruct (Z.div_eucl (Z.pos mx * 9007199254740992) (Z.pos my)) as [q r].
  destruct Hdm as [Hq Hr].
  assert (Hqb : 4503599627370496 <= q < 18014398509481984) by nia.
  change 4503599627370496 with (2 ^ 52) in Hqb.
  change 18014398509481984 with (2 ^ 54) in Hqb.
  assert (Hqd : 53 <= Zdigits2 q <= 54).
  { pose proof (Zdigits2_bounds q ltac:(lia)) as [Hdlo Hdhi].
    assert (0 < Zdigits2 q) by (destruct q; simpl; lia).
    assert (52 < Zdigits2 q) by (apply (Z.pow_lt_mono_r_iff 2); lia).
    assert (Zdigits2 q - 1 < 54).
    { apply (Z.pow_lt_mono_r_iff 2); lia. }
    lia. }
  rewrite xorb_false_r.
  destruct (binary_round_aux_normal sx q (ex - ey - 53) (new_location (Z.pos my) r)
              (inject_Z q + inject_Z r / inject_Z (Z.pos my)))
    as (m & e & Hres & Hdig & Hexp & Hval);
    [lia | apply new_location_spec; lia | lia | lia |].
  exists m, e. split; [exact Hres|]. split; [exact Hdig|].
  assert (Hpos : (inject_Z (Z.pos m) * pow2 e
                  == round64 (Vf false mx ex / Vf false my ey))%Q).
  { rewrite Hval. apply round64_comp. unfold Vf.
    assert (HQ : (inject_Z (Z.pos mx) * 9007199254740992
                  == inject_Z (Z.pos my) * inject_Z q + inject_Z r)%Q).
    { change 9007199254740992%Q with (inject_Z 9007199254740992).
      rewrite <- !inject_Z_mult, <- inject_Z_plus. now rewrite Hq. }
    assert (HY : (0 < inject_Z (Z.pos my))%Q) by reflexivity.
    assert (HR : (inject_Z r == inject_Z (Z.pos mx) * 9007199254740992
                                - inject_Z (Z.pos my) * inject_Z q)%Q) by lra.
    replace (ex - ey - 53) with (ex + - ey + -53) by lia.
    rewrite !pow2_add. unfold pow2 at 2. rewrite Qpower_opp. fold (pow2 ey).
    pose proof (pow2_pos ey). pose proof (pow2_pos ex).
    change (pow2 (-53)) with (1 # 9007199254740992)%Q.
    rewrite HR. field. split; lra. }
  destruct sx.
  - rewrite !Vf_neg. fold (Vf false m e) in Hpos. rewrite Hpos, <- round64_opp.
    apply round64_comp.
    assert (~ Vf false my ey == 0).
    { unfold Vf. pose proof (pow2_pos ey).
      assert (0 < inject_Z (Z.pos my))%Q by reflexivity. nra. }
    rewrite (Vf_neg mx ex). field. assumption.
  - exact Hpos.
Qed.

Lemma cond_Zopp_value (s : bool) (m : positive) (k e : Z) :
  0 <= k ->
  (inject_Z (cond_Zopp s (Z.pos m * 2 ^ k)) * pow2 (e - k) == Vf s m e)%Q.
Proof.
  intros Hk. destruct s; cbn [cond_Zopp].
  - rewrite Vf_neg. unfold Vf. rewrite inject_Z_opp.
    rewrite <- (mul_pow2_value (Z.pos m) k e Hk). ring.
  - unfold Vf. apply mul_pow2_value. exact Hk.
Qed.

(** Sum of two finite values that is not zero *)
Lemma SFadd_normal (sx sy : bool) (mx my : positive) (ex ey : Z) :
  (pow2 (-1022) <= Qabs (Vf sx mx ex + Vf sy my ey))%Q ->
  (Qabs (Vf sx mx ex + Vf sy my ey) < pow2 1023)%Q ->
  exists (s : bool) (m : positive) (e : Z),
    SFadd 53 1024 (S754_finite sx mx ex) (S754_finite sy my ey) = S754_finite s m e
    /\ Z.pos (digits2_pos m) = 53
    /\ (Vf s m e == round64 (Vf sx mx ex + Vf sy my ey))%Q.
Proof.
  intros Hlo Hhi. unfold SFadd.
  set (ez := Z.min ex ey).
  destruct (shl_align_spec mx ex ez) as [_ HX].
  destruct (shl_align_spec my ey ez) as [_ HY].
  replace (Z.min ex ez) with ez in HX by (unfold ez; lia).
  replace (Z.min ey ez) with ez in HY by (unfold ez; lia).
  rewrite HX, HY.
  set (M := cond_Zopp sx (Z.pos mx * 2 ^ (ex - ez)) + cond_Zopp sy (Z.pos my * 2 ^ (ey - ez))).
  assert (HV : (inject_Z M * pow2 ez == Vf sx mx ex + Vf sy my ey)%Q).
  { unfold M. rewrite inject_Z_plus, Qmult_plus_distr_l.
    rewrite <- (cond_Zopp_value sx mx (ex - ez) ex) by (unfold ez; lia).
    rewrite <- (cond_Zopp_value sy my (ey - ez) ey) by (unfold ez; lia).
    replace (ex - (ex - ez)) with ez by lia.
    replace (ey - (ey - ez)) with ez by lia. reflexivity. }
  assert (HM : M <> 0).
  { intros HM. rewrite HM in HV. pose proof (pow2_pos (-1022)).
    assert (E : (Vf sx mx ex + Vf sy my ey == 0)%Q) by (rewrite <- HV; ring).
    rewrite E in Hlo. change (Qabs 0) with 0%Q in Hlo. lra. }
  rewrite <- HV in Hlo, Hhi.
  pose proof (digits_from_magnitude M ez (-1022) 1023 HM Hlo Hhi) as HD.
  destruct (binary_normalize_normal M ez HM ltac:(lia)) as (m & e & Hres & Hdig & _ & Hval).
  exists (M <? 0), m, e. split; [exact Hres|]. split; [exact Hdig|].
  rewrite Hval. apply round64_comp. exact HV.
Qed.

Lemma int_digits (d : Z) : is_int d -> d <> 0 -> 1 <= Zdigits2 d <= 64.
Proof.
  intros [Hmin Hmax] Hd. unfold int_min, int_max in *.
  assert (Hd' : Zdigits2 d = Zdigits2 (Z.abs d)) by (destruct d; reflexivity).
  pose proof (Zdigits2_bounds (Z.abs d) ltac:(lia)) as [Hlo Hhi].
  rewrite <- Hd' in Hlo, Hhi.
  assert (0 < Zdigits2 d) by (destruct d; simpl; lia).
  assert (Zdigits2 d - 1 < 64).
  { apply (Z.pow_lt_mono_r_iff 2); [lia | lia |].
    apply Z.le_lt_trans with (Z.abs d); [exact Hlo|].
    change (2 ^ 64) with 18446744073709551616. change (2 ^ 63) with 9223372036854775808 in *.
    lia. }
  lia.
Qed.

(** ** The wind compass *)

Lemma shiftl_floor (m : positive) (e : Z) :
  Z.shiftl (Z.pos m) e = Qfloor (inject_Z (Z.pos m) * pow2 e).
Proof.
  destruct (Z_le_gt_dec 0 e) as [He | He].
  - rewrite Z.shiftl_mul_pow2 by exact He.
    rewrite (Qfloor_comp _ (inject_Z (Z.pos m * 2 ^ e))); [now rewrite Qfloor_Z|].
    rewrite inject_Z_mult, <- pow2_nonneg_Z by exact He. reflexivity.
  - replace e with (- - e) at 1 by lia. rewrite Z.shiftl_opp_r.
    rewrite Z.shiftr_div_pow2 by lia. rewrite Zdiv_Qdiv.
    apply Qfloor_comp.
    rewrite <- pow2_nonneg_Z by lia.
    assert (Hinv : (pow2 e * pow2 (- e) == 1)%Q).
    { rewrite <- pow2_add. now replace (e + - e) with 0 by lia. }
    pose proof (pow2_pos (- e)).
    transitivity (inject_Z (Z.pos m) * (pow2 e * pow2 (- e)) / pow2 (- e))%Q;
      [rewrite Hinv; field; lra | field; lra].
Qed.

(** Truncating the bit pattern is truncating the rational it denotes. *)
Lemma rat_to_int_Vf (s : bool) (m : positive) (e : Z) :
  cond_Zopp s (Z.shiftl (Z.pos m) e) = rat_to_int (Vf s m e).
Proof.
  assert (Hpos : Z.shiftl (Z.pos m) e = rat_to_int (Vf false m e)).
  { rewrite rat_to_int_floor.
    - apply shiftl_floor.
    - unfold Vf. pose proof (pow2_pos e).
      assert (0 < inject_Z (Z.pos m))%Q by reflexivity. nra. }
  destruct s; cbn [cond_Zopp]; [|exact Hpos].
  rewrite Hpos, <- rat_to_int_opp. apply rat_to_int_comp.
  rewrite Vf_neg. reflexivity.
Qed.

(** On every [int] the conversion [int(f)] is defined, and the bit-level
    computation of the index is the rounded rational computation. *)
Theorem compassIndex_rational (degrees : Z) :
  is_int degrees -> compassIndex degrees = Some (rat_compassIndex degrees).
Proof.
  intros Hint. destruct (Z.eq_dec degrees 0) as [-> | Hnz]; [vm_compute; reflexivity|].
  destruct (compass_values_bounded degrees Hint) as (_ & _ & Hsum0 & Hsum & _ & Hrange).
  cbv zeta in Hsum0, Hsum, Hrange.
  unfold compassIndex, rat_compassIndex, float64_of_int, float64_div, float64_add.
  unfold prec64, emax64.
  unfold rat_add, rat_div, rat_of_int in *.
  pose proof (int_digits degrees Hint Hnz) as Hdig.
  (* the conversion from int *)
  destruct (binary_normalize_normal degrees 0 Hnz ltac:(lia))
    as (mf & ef & Hf & Hfd & Hfe & Hfv).
  rewrite Hf.
  assert (Hfv' : (Vf (degrees <? 0) mf ef == round64 (inject_Z degrees))%Q).
  { rewrite Hfv. apply round64_comp. change (pow2 0) with 1%Q. ring. }
  set (f := round64 (inject_Z degrees)) in *.
  (* the division *)
  change float64_22_5 with (S754_finite false 6333186975989760 (-48)).
  destruct (SFdiv_normal (degrees <? 0) mf 6333186975989760 ef (-48) Hfd eq_refl ltac:(lia))
    as (mq & eq & Hq & Hqd & Hqv).
  rewrite Hq.
  assert (Hqv' : (Vf (degrees <? 0) mq eq == round64 (f / (45 # 2)))%Q).
  { rewrite Hqv. apply round64_comp. rewrite Hfv'.
    assert (Hc : (Vf false 6333186975989760 (-48) == 45 # 2)%Q) by reflexivity.
    now rewrite Hc. }
  set (x := round64 (f / (45 # 2))) in *.
  (* the sum *)
  change float64_0_5 with (S754_finite false 4503599627370496 (-53)).
  assert (Hsv : (Vf (degrees <? 0) mq eq + Vf false 4503599627370496 (-53) == x + (1 # 2))%Q).
  { rewrite Hqv'.
    assert (Hc : (Vf false 4503599627370496 (-53) == 1 # 2)%Q) by reflexivity.
    now rewrite Hc. }
  destruct Hsum as [Hsum | [Hs1 Hs2]]; [contradiction|].
  destruct (SFadd_normal (degrees <? 0) false mq 4503599627370496 eq (-53))
    as (sz & mz & ez & Hz & Hzd & Hzv).
  { rewrite Hsv. eapply Qle_trans; [|exact Hs1]. apply pow2_le. lia. }
  { rewrite Hsv. eapply Qle_lt_trans; [exact Hs2|].
    apply Qlt_le_trans with (pow2 65); [reflexivity | apply pow2_le; lia]. }
  rewrite Hz.
  (* the conversion to int *)
  assert (Hint' : rat_to_int (Vf sz mz ez) = rat_to_int (round64 (x + (1 # 2)))).
  { apply rat_to_int_comp. rewrite Hzv. apply round64_comp. exact Hsv. }
  cbn [int_of_float64]. rewrite rat_to_int_Vf, Hint'.
  destruct Hrange as [Hr1 Hr2].
  replace (int_min <=? rat_to_int (round64 (x + (1 # 2)))) with true
    by (symmetry; apply Z.leb_le; exact Hr1).
  replace (rat_to_int (round64 (x + (1 # 2))) <=? int_max) with true
    by (symmetry; apply Z.leb_le; exact Hr2).
  reflexivity.
Qed.

Lemma slice_index_in_range {A : Type} (s : list A) (i : Z) :
  0 <= i < Z.of_nat (length s) ->
  exists a, In a s /\ nth_error s (Z.to_nat i) = Some a /\ slice_index s i = Some a.
Proof.
  intros Hi. unfold slice_index.
  replace ((i <? 0) || (Z.of_nat (length s) <=? i)) with false
    by (symmetry; apply orb_false_iff; lia).
  destruct (nth_error s (Z.to_nat i)) as [a |] eqn:E.
  - exists a. split; [eapply nth_error_In; exact E | split; reflexivity].
  - apply nth_error_None in E. lia.
Qed.

Lemma index_in_bounds_small_negative : forallb index_in_bounds (range (-33) 33) = true.
Proof. vm_compute. reflexivity. Qed.

Lemma rat_compassIndex_bounds (degrees : Z) :
  -33 <= degrees -> 0 <= rat_compassIndex degrees <= 15.
Proof.
  intros Hlo. destruct (Z_lt_le_dec degrees 0) as [Hneg | Hpos].
  - pose proof (range_forallb _ _ _ index_in_bounds_small_negative degrees ltac:(lia)) as H.
    unfold index_in_bounds in H. apply andb_true_iff in H. lia.
  - pose proof (rat_compassIndex_nonneg degrees Hpos). lia.
Qed.

(** C3 (amended). For every [degrees] from -33 up to the largest [int], the
    index computed by [windDirectionToCompass] lies in 0..15 and the function
    returns one of the 16 compass labels. *)
Theorem compass_label_in_bounds (degrees : Z) :
  -33 <= degrees <= int_max ->
  exists index label,
    compassIndex degrees = Some index
    /\ 0 <= index <= 15
    /\ In label directions
    /\ windDirectionToCompass degrees = Returns label.
Proof.
  intros [Hlo Hhi].
  assert (Hint : is_int degrees) by (unfold is_int, int_min, int_max in *; lia).
  pose proof (rat_compassIndex_bounds degrees Hlo) as Hidx.
  destruct (slice_index_in_range directions (rat_compassIndex degrees))
    as (label & Hin & _ & Hslice); [simpl; lia|].
  exists (rat_compassIndex degrees), label.
  unfold windDirectionToCompass.
  rewrite (compassIndex_rational degrees Hint), Hslice. auto.
Qed.

Lemma compass_label_in_bounds_witness :
  exists index label,
    compassIndex (-33) = Some index
    /\ 0 <= index <= 15
    /\ In label directions
    /\ windDirectionToCompass (-33) = Returns label.
Proof.
  apply (compass_label_in_bounds (-33)). unfold int_max. lia.
Defined.

(** C3 as stated fails: at -90 the index is -3, at -34 it is -1, and
    indexing panics. *)
Lemma compass_panics_below_minus_33 :
  compassIndex (-90) = Some (-3)
  /\ windDirectionToCompass (-90) = Panics
  /\ compassIndex (-34) = Some (-1)
  /\ windDirectionToCompass (-34) = Panics.
Proof. repeat split; vm_compute; reflexivity. Qed.

Lemma compass_spec_range (degrees : Z) : 0 <= compass_spec degrees < 16.
Proof. unfold compass_spec. apply Z.mod_pos_bound. lia. Qed.

Lemma formula_holds_small_negative : forallb formula_holds (range (-11) 11) = true.
Proof. vm_compute. reflexivity. Qed.

(** Truncation towards zero agrees with rounding half up down to -11: there
    the quotient is above -1/2 and both give index 0. *)
Lemma rat_compassIndex_round_half_up_from_minus_11 (degrees : Z) :
  -11 <= degrees <= 3166593487994890 -> rat_compassIndex degrees = compass_spec degrees.
Proof.
  intros Hd. destruct (Z_lt_le_dec degrees 0) as [Hneg | Hpos].
  - pose proof (range_forallb _ _ _ formula_holds_small_negative degrees ltac:(lia)) as H.
    unfold formula_holds in H. now apply Z.eqb_eq in H.
  - apply rat_compassIndex_round_half_up. lia.
Qed.

(** C4 (amended). For every [degrees] from -11 to 3166593487994890 (that is
    45 * 2^46 + 10), [windDirectionToCompass] returns the label at index
    [round(degrees / 22.5) mod 16], rounding half up; 0, 90, 180, 270 and 360
    give N, E, S, W and N, 11 gives N and 12 gives NNE. *)
Theorem compass_rounds_half_up :
  (forall degrees,
      -11 <= degrees <= 3166593487994890 ->
      exists label,
        nth_error directions (Z.to_nat (compass_spec degrees)) = Some label
        /\ windDirectionToCompass degrees = Returns label)
  /\ windDirectionToCompass 0 = Returns "N"
  /\ windDirectionToCompass 90 = Returns "E"
  /\ windDirectionToCompass 180 = Returns "S"
  /\ windDirectionToCompass 270 = Returns "W"
  /\ windDirectionToCompass 360 = Returns "N"
  /\ windDirectionToCompass 11 = Returns "N"
  /\ windDirectionToCompass 12 = Returns "NNE".
Proof.
  split.
  - intros degrees Hd.
    assert (Hint : is_int degrees) by (unfold is_int, int_min, int_max; lia).
    destruct (slice_index_in_range directions (compass_spec degrees))
      as (label & _ & Hnth & Hslice); [exact (compass_spec_range degrees)|].
    exists label. split; [exact Hnth|].
    unfold windDirectionToCompass.
    rewrite (compassIndex_rational degrees Hint).
    rewrite (rat_compassIndex_round_half_up_from_minus_11 degrees Hd), Hslice. reflexivity.
  - repeat split; vm_compute; reflexivity.
Qed.

Lemma compass_rounds_half_up_witness :
  windDirectionToCompass 348 = Returns "NNW"
  /\ windDirectionToCompass 349 = Returns "N"
  /\ windDirectionToCompass (-11) = Returns "N".
Proof.
  split; [| split].
  - destruct (proj1 compass_rounds_half_up 348) as (label & Hnth & Hret); [lia|].
    rewrite Hret. f_equal. vm_compute in Hnth. now injection Hnth.
  - destruct (proj1 compass_rounds_half_up 349) as (label & Hnth & Hret); [lia|].
    rewrite Hret. f_equal. vm_compute in Hnth. now injection Hnth.
  - destruct (proj1 compass_rounds_half_up (-11)) as (label & Hnth & Hret); [lia|].
    rewrite Hret. f_equal. vm_compute in Hnth. now injection Hnth.
Defined.

(** C4 as stated fails for negative degrees: -12 / 22.5 rounds to -1, that
    is NNW, and the code returns N. *)
Lemma compass_not_half_up_on_negative :
  windDirectionToCompass (-12) = Returns "N"
  /\ round_half_up (inject_Z (-12) / (45 # 2)) = -1
  /\ nth_error directions (Z.to_nat (compass_spec (-12))) = Some "NNW".
Proof. repeat split; vm_compute; reflexivity. Qed.

Lemma formula_fails_from_minus_400_to_minus_12 :
  forallb (fun d => negb (formula_holds d)) (range (-400) 389) = true.
Proof. vm_compute. reflexivity. Qed.

(** Below -11 the index is not the one of the formula: so for every
    [degrees] from -400 to -12. *)
Lemma compass_not_half_up_below_minus_11 (degrees : Z) :
  -400 <= degrees <= -12 -> compassIndex degrees <> Some (compass_spec degrees).
Proof.
  intros Hd. rewrite compassIndex_rational by (unfold is_int, int_min, int_max; lia).
  pose proof (range_forallb _ _ _ formula_fails_from_minus_400_to_minus_12 degrees
                ltac:(lia)) as H.
  cbv beta in H. apply negb_true_iff in H. unfold formula_holds in H.
  apply Z.eqb_neq in H. congruence.
Qed.

(** One degree further the binary64 division is too coarse for the formula:
    the quotient is rounded up to a half, and adding 0.5 reaches the next
    integer. *)
Lemma compass_not_half_up_large :
  compassIndex 3166593487994891 = Some 1 /\ compass_spec 3166593487994891 = 0.
Proof. split; vm_compute; reflexivity. Qed.

(** * Further properties of the code *)

(** ** More on the condition mapping *)

(** X1. For every integer code, the day/night flag changes the result of
    [weatherCodeToCondition] exactly when the code is 0 or 1, and it never
    changes the label. *)
Theorem isDay_changes_icon_of_codes_0_and_1_only (code : Z) :
  (weatherCodeToCondition code true <> weatherCodeToCondition code false
   <-> code = 0 \/ code = 1)
  /\ fst (weatherCodeToCondition code true) = fst (weatherCodeToCondition code false).
Proof.
  destruct (Z.eq_dec code 0) as [-> | H0].
  { split; [split; [auto | intros _; discriminate] | reflexivity]. }
  destruct (Z.eq_dec code 1) as [-> | H1].
  { split; [split; [auto | intros _; discriminate] | reflexivity]. }
  assert (E : weatherCodeToCondition code true = weatherCodeToCondition code false).
  { unfold weatherCodeToCondition.
    rewrite (proj2 (Z.eqb_neq code 0) H0), (proj2 (Z.eqb_neq code 1) H1). reflexivity. }
  split; [|now rewrite E].
  split; [intros Hne; contradiction | intros [-> | ->]; contradiction].
Qed.

Lemma isDay_changes_icon_of_codes_0_and_1_only_witness :
  weatherCodeToCondition 1 true <> weatherCodeToCondition 1 false
  /\ fst (weatherCodeToCondition 61 true) = fst (weatherCodeToCondition 61 false).
Proof.
  split.
  - apply (proj1 (isDay_changes_icon_of_codes_0_and_1_only 1)). right. reflexivity.
  - exact (proj2 (isDay_changes_icon_of_codes_0_and_1_only 61)).
Defined.

(** X2. The label is "Unknown" exactly for the codes the switch has no case
    for: no listed code is labelled "Unknown". *)
Theorem unknown_label_iff_unmapped (code : Z) (isDay : bool) :
  fst (weatherCodeToCondition code isDay) = "Unknown" <-> ~ In code mapped_codes.
Proof.
  split.
  - intros Hlabel Hin. simpl in Hin.
    repeat (destruct Hin as [<- | Hin]; [destruct isDay; discriminate Hlabel|]).
    contradiction.
  - intros Hout. unfold weatherCodeToCondition.
    rewrite !(unmapped_code_eqb code _ Hout) by (simpl; tauto).
    reflexivity.
Qed.

Lemma unknown_label_iff_unmapped_witness :
  fst (weatherCodeToCondition 100 false) = "Unknown"
  /\ fst (weatherCodeToCondition 99 false) <> "Unknown".
Proof.
  split.
  - apply (proj2 (unknown_label_iff_unmapped 100 false)). simpl. lia.
  - intros Hlabel.
    apply (proj1 (unknown_label_iff_unmapped 99 false) Hlabel). simpl. tauto.
Defined.

(** X3. The moon icon is returned exactly for codes 0 and 1 at night: no
    other code, and no code by day, gets it. *)
Theorem moon_icon_iff_clear_night (code : Z) (isDay : bool) :
  snd (weatherCodeToCondition code isDay) = icon_moon
  <-> (code = 0 \/ code = 1) /\ isDay = false.
Proof.
  split.
  - unfold weatherCodeToCondition.
    destruct (Z.eqb_spec code 0) as [-> | H0].
    { destruct isDay; [discriminate | auto]. }
    destruct (Z.eqb_spec code 1) as [-> | H1].
    { destruct isDay; [discriminate | auto]. }
    repeat match goal with
           | |- context [if ?b then _ else _] => destruct b
           end; discriminate.
  - intros [[-> | ->] ->]; reflexivity.
Qed.

Lemma moon_icon_iff_clear_night_witness :
  snd (weatherCodeToCondition 1 false) = icon_moon
  /\ snd (weatherCodeToCondition 2 false) <> icon_moon.
Proof.
  split.
  - apply (proj2 (moon_icon_iff_clear_night 1 false)). split; [right|]; reflexivity.
  - intros Hmoon.
    destruct (proj1 (moon_icon_iff_clear_night 2 false) Hmoon) as [[H | H] _];
      discriminate H.
Defined.

(** ** More on [fetchWeather] *)

(** The two ways a call ends: an error, exactly when the upstream call
    failed; or the record and the entries built from the decoded body. *)
Lemma fetchWeather_cases (resp : getOutcome) :
  (fetch_fails resp /\ exists err, fetchWeather resp = Some (inl err))
  \/ (~ fetch_fails resp
      /\ exists data,
           resp = GetResponse 200 (inr data)
           /\ fetchWeather resp
              = Some (inr (buildWeather data,
                           entries_spec (Hourly data) 0 (hr_Time (Hourly data))))).
Proof.
  destruct resp as [cause | StatusCode [cause | data]].
  - left. split; [exact I | eexists; reflexivity].
  - left. split; [right; eexists; reflexivity|].
    simpl. destruct (StatusCode =? 200); eexists; reflexivity.
  - destruct (Z.eq_dec StatusCode 200) as [-> | Hne].
    + right. split.
      * intros [Hst | [cause Hdec]]; [now apply Hst | discriminate Hdec].
      * exists data. split; [reflexivity | apply fetchWeather_ok].
    + left. split; [left; exact Hne|].
      simpl. rewrite (proj2 (Z.eqb_neq _ _) Hne). eexists; reflexivity.
Qed.

(** X4. [fetchWeather] never panics; it returns an error exactly when the
    request failed, the status is not 200 or the body does not decode.  The
    status is checked before the body: any status other than 200 gives the
    status error, whatever the body holds. *)
Theorem fetchWeather_error_cases (resp : getOutcome) :
  exists result,
    fetchWeather resp = Some result
    /\ ((exists err, result = inl err) <-> fetch_fails resp)
    /\ (forall cause, resp = GetFailed cause -> result = inl (ErrFetch cause))
    /\ (forall StatusCode decoded,
          resp = GetResponse StatusCode decoded -> StatusCode <> 200 ->
          result = inl (ErrStatus StatusCode))
    /\ (forall cause,
          resp = GetResponse 200 (inl cause) -> result = inl (ErrDecode cause)).
Proof.
  destruct (fetchWeather_cases resp) as [[Hfail [err Hf]] | [Hok (data & -> & Hf)]];
    rewrite Hf; eexists; (split; [reflexivity|]).
  - split; [split; [intros _; exact Hfail | intros _; now exists err]|].
    split; [| split].
    + intros cause ->. simpl in Hf. congruence.
    + intros StatusCode decoded -> Hne. simpl in Hf.
      rewrite (proj2 (Z.eqb_neq _ _) Hne) in Hf. simpl in Hf. congruence.
    + intros cause ->. simpl in Hf. congruence.
  - split; [split; [intros [err Herr]; discriminate Herr | intros H; now destruct Hok]|].
    split; [| split].
    + intros cause [=].
    + intros StatusCode decoded [= <- <-] Hne. now destruct Hne.
    + intros cause [=].
Qed.

Lemma fetchWeather_error_cases_witness :
  exists result,
    fetchWeather (GetResponse 404 (inr short_codes_response)) = Some result
    /\ result = inl (ErrStatus 404).
Proof.
  destruct (fetchWeather_error_cases (GetResponse 404 (inr short_codes_response)))
    as (result & Hf & _ & _ & Hstatus & _).
  exists result. split; [exact Hf|].
  apply (Hstatus 404 (inr short_codes_response)); [reflexivity | lia].
Defined.

(** The entry at position [k], if there is one. *)
Lemma entries_spec_nth_error (h : openMeteoHourly) (times : list string) :
  forall i k : nat,
    nth_error (entries_spec h i times) k
    = if (i + k <? length (hr_Temperature2m h))%nat
         && (i + k <? length (hr_WeatherCode h))%nat
      then option_map (entry_spec h (i + k)) (nth_error times k)
      else None.
Proof.
  induction times as [| timeStr rest IH]; intros i k.
  - cbn [entries_spec]. destruct k; cbn [nth_error option_map]; now destruct (_ && _).
  - cbn [entries_spec].
    destruct (Nat.ltb_spec i (length (hr_Temperature2m h))) as [Ht | Ht];
      destruct (Nat.ltb_spec i (length (hr_WeatherCode h))) as [Hc | Hc]; cbn [andb].
    + destruct k as [| k]; cbn [nth_error].
      * rewrite Nat.add_0_r.
        replace (i <? length (hr_Temperature2m h))%nat with true
          by (symmetry; apply Nat.ltb_lt; lia).
        replace (i <? length (hr_WeatherCode h))%nat with true
          by (symmetry; apply Nat.ltb_lt; lia).
        reflexivity.
      * rewrite IH. now replace (S i + k)%nat with (i + S k)%nat by lia.
    + replace (i + k <? length (hr_WeatherCode h))%nat with false
        by (symmetry; apply Nat.ltb_ge; lia).
      rewrite andb_false_r. now destruct k.
    + replace (i + k <? length (hr_Temperature2m h))%nat with false
        by (symmetry; apply Nat.ltb_ge; lia).
      now destruct k.
    + replace (i + k <? length (hr_Temperature2m h))%nat with false
        by (symmetry; apply Nat.ltb_ge; lia).
      now destruct k.
Qed.

Lemma entry_spec_truncate (n i : nat) (h : openMeteoHourly) (timeStr : string) :
  (i < n)%nat -> entry_spec (truncate_hourly n h) i timeStr = entry_spec h i timeStr.
Proof.
  intros Hi. unfold entry_spec, truncate_hourly.
  cbn [hr_Time hr_Temperature2m hr_WeatherCode hr_PrecipProb hr_IsDay].
  rewrite !nth_error_firstn, !nth_firstn.
  replace (i <? n)%nat with true by (symmetry; apply Nat.ltb_lt; exact Hi).
  reflexivity.
Qed.

(** X5. Values past the cut-off are never read: cutting all five hourly
    arrays to their first [n] values, for any [n] from the number of entries
    on, leaves the result of [fetchWeather] unchanged. *)
Theorem hourly_ignores_values_past_cutoff (data : openMeteoResponse) (n : nat) :
  (Nat.min (length (hr_Time (Hourly data)))
     (Nat.min (length (hr_Temperature2m (Hourly data)))
              (length (hr_WeatherCode (Hourly data)))) <= n)%nat ->
  fetchWeather (GetResponse 200
                  (inr {| Current := Current data;
                          Hourly := truncate_hourly n (Hourly data) |}))
  = fetchWeather (GetResponse 200 (inr data)).
Proof.
  intros Hn. rewrite !fetchWeather_ok. do 3 f_equal.
  cbn [Hourly]. set (h := Hourly data) in *.
  apply nth_error_ext. intros k.
  rewrite !entries_spec_nth_error. cbn [Nat.add].
  unfold truncate_hourly at 1 2 4.
  cbn [hr_Time hr_Temperature2m hr_WeatherCode]. rewrite !length_firstn, nth_error_firstn.
  destruct (Nat.ltb_spec k (length (hr_Temperature2m h))) as [Ht | Ht];
    destruct (Nat.ltb_spec k (length (hr_WeatherCode h))) as [Hc | Hc];
    destruct (Nat.ltb_spec k n) as [Hk | Hk]; cbn [andb];
    repeat match goal with
           | |- context [(?a <? ?b)%nat] => destruct (Nat.ltb_spec a b); try lia
           end; cbn [andb]; try reflexivity.
  - destruct (nth_error (hr_Time h) k) as [timeStr |]; cbn [option_map]; [|reflexivity].
    now rewrite entry_spec_truncate.
  - destruct (nth_error (hr_Time h) k) as [timeStr |] eqn:E; cbn [option_map]; [|reflexivity].
    assert (k < length (hr_Time h))%nat by (apply nth_error_Some; congruence). lia.
Qed.

Lemma hourly_ignores_values_past_cutoff_witness :
  fetchWeather (GetResponse 200
                  (inr {| Current := Current short_codes_response;
                          Hourly := truncate_hourly 20 (Hourly short_codes_response) |}))
  = fetchWeather (GetResponse 200 (inr short_codes_response)).
Proof.
  apply (hourly_ignores_values_past_cutoff short_codes_response 20). simpl. lia.
Defined.

(** X6. The icon of an hourly entry is the condition mapping of the code
    and the day/night flag the entry itself carries, and a precipitation
    probability the provider sent for the entry's index is carried
    unchanged. *)
Theorem hourly_entry_icon_and_precipitation (data : openMeteoResponse) :
  exists weather hourly,
    fetchWeather (GetResponse 200 (inr data)) = Some (inr (weather, hourly))
    /\ (forall i e,
          nth_error hourly i = Some e ->
          hf_ConditionEmoji e
          = snd (weatherCodeToCondition (hf_WeatherCode e) (hf_IsDay e)))
    /\ (forall i e p,
          nth_error hourly i = Some e ->
          nth_error (hr_PrecipProb (Hourly data)) i = Some p ->
          hf_PrecipProb e = p).
Proof.
  eexists _, _. split; [apply fetchWeather_ok|]. split.
  - intros i e He.
    destruct (entries_spec_nth _ _ _ _ _ He) as (t & _ & -> & _). reflexivity.
  - intros i e p He Hp.
    destruct (entries_spec_nth _ _ _ _ _ He) as (t & _ & -> & _).
    cbn [entry_spec hf_PrecipProb Nat.add]. now rewrite Hp.
Qed.

Lemma hourly_entry_icon_and_precipitation_witness :
  exists weather hourly e,
    fetchWeather (GetResponse 200 (inr mixed_isDay_response)) = Some (inr (weather, hourly))
    /\ nth_error hourly 1 = Some e
    /\ hf_ConditionEmoji e = icon_moon
    /\ hf_PrecipProb e = 20.
Proof.
  destruct (hourly_entry_icon_and_precipitation mixed_isDay_response)
    as (weather & hourly & Hfetch & Hicon & Hprob).
  exists weather, hourly.
  pose proof Hfetch as Hlist. vm_compute in Hlist. injection Hlist as _ <-.
  eexists. split; [exact Hfetch|]. split; [reflexivity|]. split.
  - rewrite (Hicon 1%nat _ eq_refl). reflexivity.
  - apply (Hprob 1%nat); reflexivity.
Defined.

(** ** More on hour labels *)

Lemma string_append_assoc (a b c : string) : (a ++ b) ++ c = a ++ (b ++ c).
Proof. induction a as [| x a IH]; simpl; [reflexivity | now rewrite IH]. Qed.

(** What [time.Parse] makes of five numeric fields in the layout's shape,
    followed by any text: the checks it applies, in its order. *)
Lemma time_Parse_fields (t : Time) (extra : string) :
  fits_layout t ->
  time_Parse (timestamp t ++ extra)
  = if (t_month t <=? 0) || (12 <? t_month t) then None
    else if (t_hour t <? 0) || (24 <=? t_hour t) then None
    else if (t_min t <? 0) || (60 <=? t_min t) then None
    else if negb (String.eqb extra "") then None
    else if (t_day t <? 1) || (daysIn (t_month t) (t_year t) <? t_day t) then None
    else Some t.
Proof.
  destruct t as [year month day hour min].
  unfold fits_layout, timestamp. cbn [t_year t_month t_day t_hour t_min].
  intros (Hy & Hm & Hd & Hh & Hmin).
  rewrite !string_append_assoc.
  unfold time_Parse.
  rewrite getyear_pad4 by lia. cbn [bind append]. rewrite skip_literal. cbn [bind].
  rewrite getnum_pad2 by lia. cbn [bind append].
  destruct ((month <=? 0) || (12 <? month)); [reflexivity|].
  rewrite skip_literal. cbn [bind].
  rewrite getnum_pad2 by lia. cbn [bind append]. rewrite skip_literal. cbn [bind].
  rewrite getnum_pad2 by lia. cbn [bind append].
  destruct ((hour <? 0) || (24 <=? hour)); [reflexivity|].
  rewrite skip_literal. cbn [bind].
  rewrite getnum_pad2 by lia. cbn [bind].
  reflexivity.
Qed.

Lemma valid_time_fits_layout (t : Time) : valid_time t -> fits_layout t.
Proof.
  unfold valid_time, fits_layout. intros (Hy & Hm & Hd & Hh & Hmin).
  assert (Hd31 : daysIn (t_month t) (t_year t) <= 31)
    by (unfold daysIn; repeat match goal with |- context [if ?b then _ else _] => destruct b end; lia).
  lia.
Qed.

Lemma string_append_nil_r (s : string) : s ++ "" = s.
Proof. induction s as [| c s IH]; simpl; [reflexivity | now rewrite IH]. Qed.

(** X11. Text after the minutes, seconds for instance, makes the timestamp
    unparseable: the hour label is then the raw string. *)
Theorem hour_label_raw_with_trailing_text (t : Time) (extra : string) :
  fits_layout t -> extra <> "" ->
  time_Parse (timestamp t ++ extra) = None
  /\ hourDisplay (timestamp t ++ extra) = timestamp t ++ extra.
Proof.
  intros Hfit Hextra.
  assert (Hp : time_Parse (timestamp t ++ extra) = None).
  { rewrite (time_Parse_fields t extra Hfit).
    replace (String.eqb extra "") with false
      by (symmetry; apply String.eqb_neq; exact Hextra).
    cbn [negb].
    repeat match goal with |- context [if ?b then _ else _] => destruct b end; reflexivity. }
  split; [exact Hp | now apply hourDisplay_unparsed].
Qed.

Lemma hour_label_raw_with_trailing_text_witness :
  time_Parse "2024-03-15T15:00:00" = None
  /\ hourDisplay "2024-03-15T15:00:00" = "2024-03-15T15:00:00".
Proof.
  apply (hour_label_raw_with_trailing_text
           {| t_year := 2024; t_month := 3; t_day := 15; t_hour := 15; t_min := 0 |}
           ":00").
  - unfold fits_layout. simpl. lia.
  - discriminate.
Defined.

(** X12. A timestamp of the layout's shape gets an hour label exactly when
    its fields are a calendar date and a time of day: otherwise (month 13,
    30 February, hour 24, minute 60, ...) the label is the raw string. *)
Theorem hour_label_iff_valid_time (t : Time) :
  fits_layout t ->
  (valid_time t -> hourDisplay (timestamp t) = hour_label (t_hour t))
  /\ (~ valid_time t ->
      time_Parse (timestamp t) = None /\ hourDisplay (timestamp t) = timestamp t).
Proof.
  intros Hfit.
  pose proof (time_Parse_fields t "" Hfit) as Hp.
  rewrite string_append_nil_r in Hp. cbn [String.eqb negb] in Hp.
  split.
  - intros Hv. apply hourDisplay_parsed.
    rewrite Hp. unfold valid_time in Hv.
    replace ((t_month t <=? 0) || (12 <? t_month t)) with false
      by (symmetry; apply orb_false_iff; lia).
    replace ((t_hour t <? 0) || (24 <=? t_hour t)) with false
      by (symmetry; apply orb_false_iff; lia).
    replace ((t_min t <? 0) || (60 <=? t_min t)) with false
      by (symmetry; apply orb_false_iff; lia).
    replace ((t_day t <? 1) || (daysIn (t_month t) (t_year t) <? t_day t)) with false
      by (symmetry; apply orb_false_iff; lia).
    reflexivity.
  - intros Hinvalid.
    assert (Hnone : time_Parse (timestamp t) = None).
    { rewrite Hp.
      destruct ((t_month t <=? 0) || (12 <? t_month t)) eqn:Em; [reflexivity|].
      destruct ((t_hour t <? 0) || (24 <=? t_hour t)) eqn:Eh; [reflexivity|].
      destruct ((t_min t <? 0) || (60 <=? t_min t)) eqn:Emin; [reflexivity|].
      destruct ((t_day t <? 1) || (daysIn (t_month t) (t_year t) <? t_day t)) eqn:Ed;
        [reflexivity|].
      exfalso. apply Hinvalid.
      apply orb_false_iff in Em, Eh, Emin, Ed.
      unfold fits_layout in Hfit. unfold valid_time. lia. }
    split; [exact Hnone | now apply hourDisplay_unparsed].
Qed.

Lemma hour_label_iff_valid_time_witness :
  hourDisplay "2023-02-29T10:00" = "2023-02-29T10:00"
  /\ hourDisplay "2024-02-29T10:00" = "10 AM".
Proof.
  split.
  - apply (hour_label_iff_valid_time
             {| t_year := 2023; t_month := 2; t_day := 29; t_hour := 10; t_min := 0 |}).
    + unfold fits_layout. simpl. lia.
    + unfold valid_time. vm_compute. intuition.
  - apply (hour_label_iff_valid_time
             {| t_year := 2024; t_month := 2; t_day := 29; t_hour := 10; t_min := 0 |}).
    + unfold fits_layout. simpl. lia.
    + vm_compute. intuition discriminate.
Defined.

(** X13. The hour may be written with one digit: such a timestamp parses
    and gets the label of its hour. *)
Theorem hour_label_of_short_hour (t : Time) :
  valid_time t -> t_hour t <= 9 ->
  time_Parse (timestamp_short_hour t) = Some t
  /\ hourDisplay (timestamp_short_hour t) = hour_label (t_hour t).
Proof.
  intros Hv H9.
  assert (Hp : time_Parse (timestamp_short_hour t) = Some t).
  { pose proof (valid_time_fits_layout t Hv) as Hfit.
    destruct t as [year month day hour min].
    unfold valid_time, fits_layout, timestamp_short_hour in *.
    cbn [t_year t_month t_day t_hour t_min] in *.
    unfold time_Parse.
    rewrite getyear_pad4 by lia. cbn [bind append]. rewrite skip_literal. cbn [bind].
    rewrite getnum_pad2 by lia. cbn [bind append].
    replace ((month <=? 0) || (12 <? month)) with false by (symmetry; apply orb_false_iff; lia).
    rewrite skip_literal. cbn [bind].
    rewrite getnum_pad2 by lia. cbn [bind append]. rewrite skip_literal. cbn [bind].
    assert (Hh : getnum (String (digitChar hour) (String ":" (pad2 min))) false
                 = Some (hour, String ":" (pad2 min))).
    { unfold getnum. rewrite isDigit_digitChar by lia.
      change (isDigit ":") with false. cbv iota.
      now rewrite digitVal_digitChar by lia. }
    rewrite Hh. cbn [bind].
    replace ((hour <? 0) || (24 <=? hour)) with false by (symmetry; apply orb_false_iff; lia).
    rewrite skip_literal. cbn [bind].
    rewrite <- (append_nil_r_pad2 min).
    rewrite getnum_pad2 by lia. cbn [bind].
    replace ((min <? 0) || (60 <=? min)) with false by (symmetry; apply orb_false_iff; lia).
    cbn [String.eqb negb].
    replace ((day <? 1) || (daysIn month year <? day)) with false
      by (symmetry; apply orb_false_iff; lia).
    reflexivity. }
  split; [exact Hp | exact (hourDisplay_parsed _ _ Hp)].
Qed.

Lemma hour_label_of_short_hour_witness :
  time_Parse "2024-03-15T9:30"
  = Some {| t_year := 2024; t_month := 3; t_day := 15; t_hour := 9; t_min := 30 |}
  /\ hourDisplay "2024-03-15T9:30" = "9 AM".
Proof.
  apply (hour_label_of_short_hour
           {| t_year := 2024; t_month := 3; t_day := 15; t_hour := 9; t_min := 30 |}).
  - vm_compute. intuition discriminate.
  - simpl. lia.
Defined.

Lemma isDigit_inv (c : ascii) :
  isDigit c = true -> 0 <= digitVal c <= 9 /\ c = digitChar (digitVal c).
Proof.
  destruct c as [[] [] [] [] [] [] [] []]; intros H; try discriminate H;
    (split; [unfold digitVal; simpl; lia | reflexivity]).
Qed.

Lemma pad2_digits (a b : Z) :
  0 <= b <= 9 -> pad2 (a * 10 + b) = String (digitChar a) (String (digitChar b) "").
Proof.
  intros Hb. unfold pad2.
  rewrite <- (Z.div_unique (a * 10 + b) 10 a b) by lia.
  rewrite <- (Z.mod_unique (a * 10 + b) 10 a b) by lia.
  reflexivity.
Qed.

Lemma getnum_inv (s rest : string) (fixed : bool) (n : Z) :
  getnum s fixed = Some (n, rest) ->
  (0 <= n <= 99 /\ s = pad2 n ++ rest)
  \/ (fixed = false /\ 0 <= n <= 9 /\ s = String (digitChar n) rest).
Proof.
  unfold getnum.
  destruct s as [| c0 s1]; [discriminate|].
  destruct (isDigit c0) eqn:E0; [|discriminate].
  destruct (isDigit_inv c0 E0) as [H0 Hc0].
  destruct s1 as [| c1 s2].
  - destruct fixed; [discriminate|]. intros [= <- <-].
    right. split; [reflexivity|]. split; [exact H0 | now rewrite <- Hc0].
  - destruct (isDigit c1) eqn:E1.
    + destruct (isDigit_inv c1 E1) as [H1 Hc1].
      intros [= <- <-]. left. split; [lia|].
      rewrite pad2_digits by exact H1. cbn [append]. now rewrite <- Hc0, <- Hc1.
    + destruct fixed; [discriminate|]. intros [= <- <-].
      right. split; [reflexivity|]. split; [exact H0 | now rewrite <- Hc0].
Qed.

Lemma getyear_inv (s rest : string) (n : Z) :
  getyear s = Some (n, rest) -> 0 <= n <= 9999 /\ s = pad4 n ++ rest.
Proof.
  unfold getyear.
  destruct s as [| c0 [| c1 [| c2 [| c3 s4]]]]; try discriminate.
  destruct (isDigit c0) eqn:E0; [|discriminate].
  destruct (isDigit c1) eqn:E1; [|discriminate].
  destruct (isDigit c2) eqn:E2; [|discriminate].
  destruct (isDigit c3) eqn:E3; [|discriminate].
  cbn [andb]. intros [= <- <-].
  destruct (isDigit_inv c0 E0) as [H0 Hc0]. destruct (isDigit_inv c1 E1) as [H1 Hc1].
  destruct (isDigit_inv c2 E2) as [H2 Hc2]. destruct (isDigit_inv c3 E3) as [H3 Hc3].
  split; [lia|].
  unfold pad4. cbn [append].
  set (d0 := digitVal c0) in *. set (d1 := digitVal c1) in *.
  set (d2 := digitVal c2) in *. set (d3 := digitVal c3) in *.
  clearbody d0 d1 d2 d3.
  rewrite <- (Z.div_unique ((((d0 * 10 + d1) * 10 + d2) * 10 + d3)) 1000 d0
                (d1 * 100 + d2 * 10 + d3)) by lia.
  rewrite <- (Z.div_unique ((((d0 * 10 + d1) * 10 + d2) * 10 + d3)) 100 (d0 * 10 + d1)
                (d2 * 10 + d3)) by lia.
  rewrite <- (Z.div_unique ((((d0 * 10 + d1) * 10 + d2) * 10 + d3)) 10
                ((d0 * 10 + d1) * 10 + d2) d3) by lia.
  rewrite <- (Z.mod_unique (d0 * 10 + d1) 10 d0 d1) by lia.
  rewrite <- (Z.mod_unique ((d0 * 10 + d1) * 10 + d2) 10 (d0 * 10 + d1) d2) by lia.
  rewrite <- (Z.mod_unique ((((d0 * 10 + d1) * 10 + d2) * 10 + d3)) 10
                ((d0 * 10 + d1) * 10 + d2) d3) by lia.
  now rewrite <- Hc0, <- Hc1, <- Hc2, <- Hc3.
Qed.

Lemma skip_inv (s rest : string) (c : ascii) :
  skip s c = Some rest -> s = String c rest.
Proof.
  unfold skip. destruct s as [| x s]; [discriminate|].
  destruct (Ascii.eqb_spec x c) as [-> |]; [|discriminate].
  now intros [= ->].
Qed.

(** A string that is not the written form of a valid calendar time, with
    the hour in two digits or in one, does not parse. *)
Lemma time_Parse_None_unless_timestamp (s : string) :
  (forall t, valid_time t -> s <> timestamp t /\ s <> timestamp_short_hour t) ->
  time_Parse s = None.
Proof.
  intros Hforms.
  destruct (time_Parse s) as [t |] eqn:H; [exfalso | reflexivity].
  unfold time_Parse in H.
  destruct (getyear s) as [[year v1] |] eqn:Ey; [|discriminate H]. cbn [bind] in H.
  destruct (skip v1 "-") as [v2 |] eqn:Es1; [|discriminate H]. cbn [bind] in H.
  destruct (getnum v2 true) as [[month v3] |] eqn:Em; [|discriminate H]. cbn [bind] in H.
  destruct ((month <=? 0) || (12 <? month)) eqn:Emr; [discriminate H|].
  destruct (skip v3 "-") as [v4 |] eqn:Es2; [|discriminate H]. cbn [bind] in H.
  destruct (getnum v4 true) as [[day v5] |] eqn:Ed; [|discriminate H]. cbn [bind] in H.
  destruct (skip v5 "T") as [v6 |] eqn:Es3; [|discriminate H]. cbn [bind] in H.
  destruct (getnum v6 false) as [[hour v7] |] eqn:Eh; [|discriminate H]. cbn [bind] in H.
  destruct ((hour <? 0) || (24 <=? hour)) eqn:Ehr; [discriminate H|].
  destruct (skip v7 ":") as [v8 |] eqn:Es4; [|discriminate H]. cbn [bind] in H.
  destruct (getnum v8 true) as [[min v9] |] eqn:Emin; [|discriminate H]. cbn [bind] in H.
  destruct ((min <? 0) || (60 <=? min)) eqn:Eminr; [discriminate H|].
  destruct (String.eqb_spec v9 "") as [-> | Hne]; [|discriminate H]. cbn [negb] in H.
  destruct ((day <? 1) || (daysIn month year <? day)) eqn:Edr; [discriminate H|].
  injection H as <-.
  apply orb_false_iff in Emr, Ehr, Eminr, Edr.
  apply getyear_inv in Ey. destruct Ey as [Hy ->].
  apply skip_inv in Es1, Es2, Es3, Es4. subst v1 v3 v5 v7.
  destruct (getnum_inv _ _ _ _ Em) as [[_ ->] | [Hf _]]; [|discriminate Hf].
  destruct (getnum_inv _ _ _ _ Ed) as [[_ ->] | [Hf _]]; [|discriminate Hf].
  destruct (getnum_inv _ _ _ _ Emin) as [[_ ->] | [Hf _]]; [|discriminate Hf].
  destruct (Hforms {| t_year := year; t_month := month; t_day := day;
                      t_hour := hour; t_min := min |}) as [Hlong Hshort].
  { unfold valid_time; cbn [t_year t_month t_day t_hour t_min]; lia. }
  unfold timestamp in Hlong. unfold timestamp_short_hour in Hshort.
  cbn [t_year t_month t_day t_hour t_min] in Hlong, Hshort.
  destruct (getnum_inv _ _ _ _ Eh) as [[_ ->] | (_ & H9 & ->)].
  - now apply Hlong.
  - now apply Hshort.
Qed.

(** The entry the loop builds for a timestamp that has a temperature and a
    weather code. *)
Lemma entries_spec_entry (h : openMeteoHourly) (i : nat) (timeStr : string) :
  nth_error (hr_Time h) i = Some timeStr ->
  (i < length (hr_Temperature2m h))%nat ->
  (i < length (hr_WeatherCode h))%nat ->
  nth_error (entries_spec h 0 (hr_Time h)) i = Some (entry_spec h i timeStr).
Proof.
  intros Ht Htemp Hcode.
  rewrite entries_spec_nth_error. cbn [Nat.add].
  replace (i <? length (hr_Temperature2m h))%nat with true
    by (symmetry; apply Nat.ltb_lt; exact Htemp).
  replace (i <? length (hr_WeatherCode h))%nat with true
    by (symmetry; apply Nat.ltb_lt; exact Hcode).
  now rewrite Ht.
Qed.

(** C6. [fetchWeather] returns without error whatever the timestamps are,
    and for every timestamp that has a temperature and a weather code the
    hourly sequence has, at the timestamp's index, an entry that carries the
    timestamp and whose hour label is computed from it: when the timestamp
    parses under the layout [YYYY-MM-DDTHH:MM] the label is the 12-hour label
    of its hour (so for every timestamp of that form with calendar fields in
    range, and "2024-03-15T15:00" gives "3 PM"); when it does not parse the
    label is the raw timestamp (so for every string that is not the written
    form of a valid calendar time, and "not-a-time" gives "not-a-time"). *)
Theorem hour_label_of_timestamp (data : openMeteoResponse) :
  exists weather hourly,
    fetchWeather (GetResponse 200 (inr data)) = Some (inr (weather, hourly))
    /\ forall i timeStr,
         nth_error (hr_Time (Hourly data)) i = Some timeStr ->
         (i < length (hr_Temperature2m (Hourly data)))%nat ->
         (i < length (hr_WeatherCode (Hourly data)))%nat ->
         exists e,
           nth_error hourly i = Some e
           /\ hf_Time e = timeStr
           /\ (forall t, time_Parse timeStr = Some t -> hf_Hour e = hour_label (t_hour t))
           /\ (forall t, valid_time t -> timeStr = timestamp t ->
                         hf_Hour e = hour_label (t_hour t))
           /\ (timeStr = "2024-03-15T15:00" -> hf_Hour e = "3 PM")
           /\ (time_Parse timeStr = None -> hf_Hour e = timeStr)
           /\ ((forall t, valid_time t ->
                          timeStr <> timestamp t /\ timeStr <> timestamp_short_hour t) ->
               hf_Hour e = timeStr)
           /\ (timeStr = "not-a-time" -> hf_Hour e = "not-a-time").
Proof.
  eexists _, _. split; [apply fetchWeather_ok|].
  intros i timeStr Ht Htemp Hcode.
  exists (entry_spec (Hourly data) i timeStr).
  split; [now apply entries_spec_entry|].
  cbn [entry_spec hf_Time hf_Hour].
  split; [reflexivity|].
  split; [exact (hourDisplay_parsed timeStr)|].
  split; [intros t Hv ->; apply hourDisplay_parsed; now apply time_Parse_timestamp|].
  split; [intros ->; reflexivity|].
  split; [exact (hourDisplay_unparsed timeStr)|].
  split; [intros Hforms; apply hourDisplay_unparsed;
          now apply time_Parse_None_unless_timestamp|].
  intros ->. reflexivity.
Qed.

Lemma hour_label_of_timestamp_witness :
  exists weather hourly e0 e1 e2 e3,
    fetchWeather (GetResponse 200 (inr raw_time_response)) = Some (inr (weather, hourly))
    /\ nth_error hourly 0 = Some e0 /\ hf_Hour e0 = "3 PM"
    /\ nth_error hourly 1 = Some e1 /\ hf_Hour e1 = "not-a-time"
    /\ nth_error hourly 2 = Some e2 /\ hf_Hour e2 = "2024-03-15T16:00:00"
    /\ nth_error hourly 3 = Some e3 /\ hf_Hour e3 = "9 AM".
Proof.
  destruct (hour_label_of_timestamp raw_time_response)
    as (weather & hourly & Hfetch & Hentries).
  destruct (Hentries 0%nat "2024-03-15T15:00" eq_refl ltac:(simpl; lia) ltac:(simpl; lia))
    as (e0 & He0 & _ & _ & Hvalid & _).
  destruct (Hentries 1%nat "not-a-time" eq_refl ltac:(simpl; lia) ltac:(simpl; lia))
    as (e1 & He1 & _ & _ & _ & _ & _ & _ & Hraw).
  destruct (Hentries 2%nat "2024-03-15T16:00:00" eq_refl ltac:(simpl; lia) ltac:(simpl; lia))
    as (e2 & He2 & _ & _ & _ & _ & Hnone & _).
  destruct (Hentries 3%nat "2024-03-15T9:00" eq_refl ltac:(simpl; lia) ltac:(simpl; lia))
    as (e3 & He3 & _ & Hparsed & _).
  exists weather, hourly, e0, e1, e2, e3.
  split; [exact Hfetch|].
  split; [exact He0|]. split.
  { apply (Hvalid {| t_year := 2024; t_month := 3; t_day := 15; t_hour := 15; t_min := 0 |});
      [vm_compute; intuition discriminate | reflexivity]. }
  split; [exact He1|]. split; [exact (Hraw eq_refl)|].
  split; [exact He2|]. split; [exact (Hnone eq_refl)|].
  split; [exact He3|].
  exact (Hparsed {| t_year := 2024; t_month := 3; t_day := 15; t_hour := 9; t_min := 0 |}
           eq_refl).
Defined.

(** X14. Only the two written forms of a calendar time parse: a string that
    [time.Parse] accepts is the timestamp of the time it returns, with the
    hour in two digits or, below 10, in one; the time returned is a valid
    calendar time. *)
Theorem time_Parse_inverse (s : string) (t : Time) :
  time_Parse s = Some t ->
  valid_time t
  /\ (s = timestamp t \/ (t_hour t <= 9 /\ s = timestamp_short_hour t)).
Proof.
  unfold time_Parse. intros H.
  destruct (getyear s) as [[year v1] |] eqn:Ey; [|discriminate H]. cbn [bind] in H.
  destruct (skip v1 "-") as [v2 |] eqn:Es1; [|discriminate H]. cbn [bind] in H.
  destruct (getnum v2 true) as [[month v3] |] eqn:Em; [|discriminate H]. cbn [bind] in H.
  destruct ((month <=? 0) || (12 <? month)) eqn:Emr; [discriminate H|].
  destruct (skip v3 "-") as [v4 |] eqn:Es2; [|discriminate H]. cbn [bind] in H.
  destruct (getnum v4 true) as [[day v5] |] eqn:Ed; [|discriminate H]. cbn [bind] in H.
  destruct (skip v5 "T") as [v6 |] eqn:Es3; [|discriminate H]. cbn [bind] in H.
  destruct (getnum v6 false) as [[hour v7] |] eqn:Eh; [|discriminate H]. cbn [bind] in H.
  destruct ((hour <? 0) || (24 <=? hour)) eqn:Ehr; [discriminate H|].
  destruct (skip v7 ":") as [v8 |] eqn:Es4; [|discriminate H]. cbn [bind] in H.
  destruct (getnum v8 true) as [[min v9] |] eqn:Emin; [|discriminate H]. cbn [bind] in H.
  destruct ((min <? 0) || (60 <=? min)) eqn:Eminr; [discriminate H|].
  destruct (String.eqb_spec v9 "") as [-> | Hne]; [|discriminate H]. cbn [negb] in H.
  destruct ((day <? 1) || (daysIn month year <? day)) eqn:Edr; [discriminate H|].
  injection H as <-.
  apply orb_false_iff in Emr, Ehr, Eminr, Edr.
  apply getyear_inv in Ey. destruct Ey as [Hy ->].
  apply skip_inv in Es1, Es2, Es3, Es4. subst v1 v3 v5 v7.
  destruct (getnum_inv _ _ _ _ Em) as [[_ ->] | [Hf _]]; [|discriminate Hf].
  destruct (getnum_inv _ _ _ _ Ed) as [[_ ->] | [Hf _]]; [|discriminate Hf].
  destruct (getnum_inv _ _ _ _ Emin) as [[_ ->] | [Hf _]]; [|discriminate Hf].
  split; [unfold valid_time; cbn [t_year t_month t_day t_hour t_min]; lia|].
  unfold timestamp, timestamp_short_hour. cbn [t_year t_month t_day t_hour t_min].
  destruct (getnum_inv _ _ _ _ Eh) as [[_ ->] | (_ & H9 & ->)].
  - left. reflexivity.
  - right. split; [lia | reflexivity].
Qed.

Lemma time_Parse_inverse_witness :
  valid_time {| t_year := 2024; t_month := 12; t_day := 31; t_hour := 23; t_min := 59 |}
  /\ ("2024-12-31T23:59"
      = timestamp {| t_year := 2024; t_month := 12; t_day := 31; t_hour := 23; t_min := 59 |}
      \/ (23 <= 9
          /\ "2024-12-31T23:59"
             = timestamp_short_hour
                 {| t_year := 2024; t_month := 12; t_day := 31; t_hour := 23; t_min := 59 |})).
Proof.
  apply (time_Parse_inverse "2024-12-31T23:59"). reflexivity.
Defined.

(** ** More on the wind compass *)

Lemma returns_label_spec (o : outcome string) (label : string) :
  returns_label o label = true -> o = Returns label.
Proof.
  destruct o as [a | |]; simpl; try discriminate.
  intros H. apply String.eqb_eq in H. now subst.
Qed.

Lemma panics_spec (o : outcome string) : panics o = true -> o = Panics.
Proof. destruct o; simpl; intros H; try discriminate; reflexivity. Qed.

Lemma rat_to_int_nonpos (z : Q) : (z <= 0)%Q -> rat_to_int z <= 0.
Proof.
  intros Hz.
  assert (H : rat_to_int z = - rat_to_int (- z)%Q).
  { rewrite rat_to_int_opp. lia. }
  rewrite H. pose proof (rat_to_int_nonneg (- z)%Q ltac:(lra)). lia.
Qed.

Lemma rat_compassIndex_small_negative :
  forallb (fun d => rat_compassIndex d <=? 0) (range (-23) 23) = true.
Proof. vm_compute. reflexivity. Qed.

(** For negative degrees the truncated sum, and with it the remainder, is
    never positive. *)
Lemma rat_compassIndex_nonpos (degrees : Z) :
  degrees < 0 -> -16 < rat_compassIndex degrees <= 0.
Proof.
  intros Hneg.
  assert (Hle : rat_compassIndex degrees <= 0).
  { destruct (Z_le_gt_dec (-23) degrees) as [Hsmall | Hbig].
    - pose proof (range_forallb _ _ _ rat_compassIndex_small_negative degrees ltac:(lia)) as H.
      cbv beta in H. lia.
    - unfold rat_compassIndex, rat_add, rat_div, rat_of_int.
      assert (Hd : (inject_Z degrees <= -24)%Q).
      { change (-24)%Q with (inject_Z (-24)). rewrite <- Zle_Qle. lia. }
      destruct (round64_bounds_neg (inject_Z degrees) (inject_Z degrees) (-24)) as [_ Hf];
        [lra | lra | exact Hd |].
      set (f := round64 (inject_Z degrees)) in *. clearbody f.
      assert (Hu : (ulp53 == 1 # 9007199254740992)%Q) by reflexivity.
      destruct (round64_bounds_neg (f / (45 # 2)) (f / (45 # 2)) (-1)) as [_ Hx];
        [lra | lra | rewrite div_22_5; rewrite Hu in Hf; lra |].
      set (x := round64 (f / (45 # 2))) in *. clearbody x.
      destruct (round64_bounds_neg (x + (1 # 2)) (x + (1 # 2)) 0) as [_ Hz];
        [lra | lra | rewrite Hu in Hx; lra |].
      pose proof (rat_to_int_nonpos (round64 (x + (1 # 2))) ltac:(lra)) as Ht.
      pose proof (Z.rem_bound_pos_neg (rat_to_int (round64 (x + (1 # 2)))) 16 ltac:(lia) Ht).
      lia. }
  split; [|exact Hle].
  pose proof (Z.rem_bound_abs
                (rat_to_int (rat_add (rat_div (rat_of_int degrees) (45 # 2)) (1 # 2))) 16
                ltac:(lia)) as Habs.
  unfold rat_compassIndex in *. lia.
Qed.

Lemma panics_from_minus_371_to_minus_34 :
  forallb (fun d => panics (windDirectionToCompass d)) (range (-371) 338) = true.
Proof. vm_compute. reflexivity. Qed.

Lemma north_from_minus_33_to_minus_1 :
  forallb (fun d => returns_label (windDirectionToCompass d) "N") (range (-33) 33) = true.
Proof. vm_compute. reflexivity. Qed.

(** X7. The float-to-int conversion is defined for every [int]: the
    function returns or panics, and the index lies strictly between -16 and
    16. *)
Theorem compass_conversion_defined (degrees : Z) :
  is_int degrees ->
  exists index,
    compassIndex degrees = Some index
    /\ -16 < index < 16
    /\ windDirectionToCompass degrees <> Unspecified.
Proof.
  intros Hint. exists (rat_compassIndex degrees).
  pose proof (compassIndex_rational degrees Hint) as Hidx.
  split; [exact Hidx|]. split.
  - pose proof (Z.rem_bound_abs
                  (rat_to_int (rat_add (rat_div (rat_of_int degrees) (45 # 2)) (1 # 2))) 16
                  ltac:(lia)) as Habs.
    unfold rat_compassIndex. lia.
  - unfold windDirectionToCompass. rewrite Hidx.
    destruct (slice_index directions (rat_compassIndex degrees)); discriminate.
Qed.

Lemma compass_conversion_defined_witness :
  exists index,
    compassIndex int_min = Some index
    /\ -16 < index < 16
    /\ windDirectionToCompass int_min <> Unspecified.
Proof.
  apply (compass_conversion_defined int_min).
  unfold is_int, int_min, int_max. lia.
Defined.

(** X8. A negative direction never gets a label other than N: the function
    panics or returns "N".  It returns "N" from -33 to -1 and panics from
    -371 to -34. *)
Theorem compass_negative_degrees :
  (forall degrees,
      int_min <= degrees < 0 ->
      windDirectionToCompass degrees = Panics
      \/ windDirectionToCompass degrees = Returns "N")
  /\ (forall degrees,
        -33 <= degrees <= -1 -> windDirectionToCompass degrees = Returns "N")
  /\ (forall degrees,
        -371 <= degrees <= -34 -> windDirectionToCompass degrees = Panics).
Proof.
  split; [| split].
  - intros degrees [Hlo Hneg].
    assert (Hint : is_int degrees) by (unfold is_int, int_min, int_max in *; lia).
    unfold windDirectionToCompass. rewrite (compassIndex_rational degrees Hint).
    pose proof (rat_compassIndex_nonpos degrees Hneg) as Hidx.
    destruct (Z.eq_dec (rat_compassIndex degrees) 0) as [-> | Hnz].
    + right. reflexivity.
    + left. unfold slice_index.
      replace (rat_compassIndex degrees <? 0) with true by (symmetry; apply Z.ltb_lt; lia).
      reflexivity.
  - intros degrees Hd. apply returns_label_spec.
    exact (range_forallb _ _ _ north_from_minus_33_to_minus_1 degrees ltac:(lia)).
  - intros degrees Hd. apply panics_spec.
    exact (range_forallb _ _ _ panics_from_minus_371_to_minus_34 degrees ltac:(lia)).
Qed.

Lemma compass_negative_degrees_witness :
  (windDirectionToCompass (-1000) = Panics
   \/ windDirectionToCompass (-1000) = Returns "N")
  /\ windDirectionToCompass (-20) = Returns "N"
  /\ windDirectionToCompass (-180) = Panics.
Proof.
  destruct compass_negative_degrees as (Hany & Hnorth & Hpanic).
  split; [| split].
  - apply (Hany (-1000)). unfold int_min. lia.
  - apply (Hnorth (-20)). lia.
  - apply (Hpanic (-180)). lia.
Defined.

Lemma Qfloor_add_Z (q : Q) (n : Z) : Qfloor (q + inject_Z n) = Qfloor q + n.
Proof.
  pose proof (Qfloor_le q) as Hle. pose proof (Qlt_floor q) as Hlt.
  apply Qfloor_between.
  - rewrite inject_Z_plus. lra.
  - rewrite !inject_Z_plus in *. lra.
Qed.

(** A turn of [45 * k] degrees moves the index of the formula by [2 * k]
    positions. *)
Lemma compass_spec_shift (degrees k : Z) :
  compass_spec (degrees + 45 * k) = (compass_spec degrees + 2 * k) mod 16.
Proof.
  unfold compass_spec, round_half_up.
  rewrite Z.add_mod_idemp_l by lia. f_equal.
  rewrite <- Qfloor_add_Z. apply Qfloor_comp.
  rewrite !inject_Z_plus, !inject_Z_mult. field.
Qed.

(** X9. Within the range where the index follows the formula, turning by
    [45 * k] degrees advances the index by [2 * k] positions around the
    rose, and a full turn of 360 degrees leaves the label unchanged. *)
Theorem compass_turns :
  (forall degrees k,
      0 <= degrees <= 3166593487994890 ->
      0 <= degrees + 45 * k <= 3166593487994890 ->
      exists index,
        compassIndex degrees = Some index
        /\ compassIndex (degrees + 45 * k) = Some ((index + 2 * k) mod 16))
  /\ (forall degrees,
        0 <= degrees <= 3166593487994890 - 360 ->
        windDirectionToCompass (degrees + 360) = windDirectionToCompass degrees).
Proof.
  assert (Hidx : forall degrees,
             0 <= degrees <= 3166593487994890 ->
             compassIndex degrees = Some (compass_spec degrees)).
  { intros degrees Hd.
    rewrite compassIndex_rational by (unfold is_int, int_min, int_max; lia).
    now rewrite rat_compassIndex_round_half_up. }
  split.
  - intros degrees k Hd Hk. exists (compass_spec degrees).
    split; [exact (Hidx degrees Hd)|].
    rewrite (Hidx _ Hk). f_equal. apply compass_spec_shift.
  - intros degrees Hd. unfold windDirectionToCompass.
    rewrite (Hidx degrees) by lia. rewrite (Hidx (degrees + 360)) by lia.
    replace (degrees + 360) with (degrees + 45 * 8) by lia.
    rewrite compass_spec_shift.
    replace (compass_spec degrees + 2 * 8) with (compass_spec degrees + 1 * 16) by lia.
    rewrite Z.mod_add by lia.
    rewrite Z.mod_small by exact (compass_spec_range degrees). reflexivity.
Qed.

Lemma compass_turns_witness :
  (exists index,
      compassIndex 100 = Some index
      /\ compassIndex (100 + 45 * 3) = Some ((index + 2 * 3) mod 16))
  /\ windDirectionToCompass (725 + 360) = windDirectionToCompass 725.
Proof.
  destruct compass_turns as [Hturn Hfull].
  split.
  - apply (Hturn 100 3); lia.
  - apply (Hfull 725). lia.
Defined.

Lemma sectors_hold_0_to_360 : forallb sectors_hold (range 0 361) = true.
Proof. vm_compute. reflexivity. Qed.

Lemma in_some_sector_0_to_360 : forallb in_some_sector (range 0 361) = true.
Proof. vm_compute. reflexivity. Qed.

(** X10. The labels of the compass rose in whole degrees: every direction
    from 0 to 360 lies in a sector of [compass_sectors], and a direction gets
    the label of the sector it lies in (N up to 11 and from 349, NNE from 12
    to 33, and so on in steps of 22 or 23 degrees). *)
Theorem compass_sector_labels :
  (forall lo hi label degrees,
      In (lo, hi, label) compass_sectors ->
      lo <= degrees <= hi ->
      windDirectionToCompass degrees = Returns label)
  /\ (forall degrees,
        0 <= degrees <= 360 ->
        exists lo hi label,
          In (lo, hi, label) compass_sectors /\ lo <= degrees <= hi).
Proof.
  split.
  - intros lo hi label degrees Hin Hd.
    assert (Hrange : 0 <= degrees < 0 + Z.of_nat 361).
    { simpl in Hin.
      repeat (destruct Hin as [[= <- <- <-] | Hin]; [lia|]). contradiction. }
    pose proof (range_forallb _ _ _ sectors_hold_0_to_360 degrees Hrange) as H.
    unfold sectors_hold in H. rewrite forallb_forall in H.
    specialize (H _ Hin). cbv beta iota in H.
    replace ((lo <=? degrees) && (degrees <=? hi)) with true in H
      by (symmetry; apply andb_true_iff; lia).
    apply returns_label_spec. exact H.
  - intros degrees Hd.
    pose proof (range_forallb _ _ _ in_some_sector_0_to_360 degrees ltac:(lia)) as H.
    unfold in_some_sector in H. apply existsb_exists in H.
    destruct H as ([[lo hi] label] & Hin & Hb).
    exists lo, hi, label. split; [exact Hin|]. apply andb_true_iff in Hb. lia.
Qed.

Lemma compass_sector_labels_witness :
  windDirectionToCompass 200 = Returns "SSW"
  /\ exists lo hi label, In (lo, hi, label) compass_sectors /\ lo <= 200 <= hi.
Proof.
  destruct compass_sector_labels as [Hlabel Hcover].
  split.
  - apply (Hlabel 192 213 "SSW" 200); [simpl; tauto | lia].
  - apply (Hcover 200). lia.
Defined.

(** ** The request handlers *)

Ltac in_trace H :=
  simpl in H; repeat (destruct H as [H | H]; try discriminate H); try contradiction.

Ltac trace_has := simpl; repeat (first [left; reflexivity | right]).

(** X15. [HandleAPI] never panics.  It answers 503 with the fixed message,
    after logging the error, exactly when [fetchWeather] fails, and then
    encodes nothing; otherwise it sets the JSON content type and encodes the
    record and the entries that [fetchWeather] returned, and sends no error. *)
Theorem HandleAPI_answers (resp : getOutcome) :
  exists trace,
    HandleAPI resp = Some trace
    /\ (fetch_fails resp ->
        exists err,
          fetchWeather resp = Some (inl err)
          /\ trace = [SlogError "fetch weather" err;
                      HttpError "Unable to fetch weather" 503])
    /\ (~ fetch_fails resp ->
        exists weather hourly,
          fetchWeather resp = Some (inr (weather, hourly))
          /\ trace = [HeaderSet "Content-Type" "application/json";
                      Encode weather hourly])
    /\ ((exists msg code, In (HttpError msg code) trace) <-> fetch_fails resp)
    /\ ((exists weather hourly, In (Encode weather hourly) trace) <-> ~ fetch_fails resp).
Proof.
  unfold HandleAPI.
  destruct (fetchWeather_cases resp) as [[Hfail [err Hf]] | [Hok (data & -> & Hf)]];
    rewrite Hf; cbn [bind]; eexists; (split; [reflexivity|]).
  - split; [intros _; exists err; split; reflexivity|].
    split; [intros Hn; now destruct Hn|].
    split.
    + split; [intros _; exact Hfail|].
      intros _. eexists _, _. right. left. reflexivity.
    + split; [|intros Hn; now destruct Hn].
      intros (weather & hourly & [H | [H | []]]); discriminate H.
  - split; [intros Hfail; now destruct Hok|].
    split; [intros _; eexists _, _; split; reflexivity|].
    split.
    + split; [|intros Hfail; now destruct Hok].
      intros (msg & code & [H | [H | []]]); discriminate H.
    + split; [intros _; exact Hok|].
      intros _. eexists _, _. right. left. reflexivity.
Qed.

Lemma HandleAPI_answers_witness :
  exists trace,
    HandleAPI (GetResponse 500 (inl "EOF")) = Some trace
    /\ In (HttpError "Unable to fetch weather" 503) trace.
Proof.
  destruct (HandleAPI_answers (GetResponse 500 (inl "EOF")))
    as (trace & Hrun & Hfail & _).
  exists trace. split; [exact Hrun|].
  destruct Hfail as (err & _ & ->); [left; lia|].
  right. left. reflexivity.
Defined.

(** X16. [HandleRoot] never panics and never sends an error status: it
    always sets the HTML content type and asks for the template
    [weather.html] of the server's template directory.  The page data it
    executes the template on carry the server's host name and the time of the
    request, and either the fixed error message with no weather and no
    entries, exactly when [fetchWeather] failed, or an empty error message
    with the record and the entries [fetchWeather] returned.  A template
    failure is logged as a warning and nothing else. *)
Theorem HandleRoot_page (s : Server) (now path : string) (resp : getOutcome)
    (tpl : templateOutcome) :
  exists trace,
    HandleRoot s now path resp tpl = Some trace
    /\ In (HeaderSet "Content-Type" "text/html; charset=utf-8") trace
    /\ In (ParseFiles (srv_TemplatesDir s) "weather.html") trace
    /\ (forall msg code, ~ In (HttpError msg code) trace)
    /\ (forall name data,
          In (Execute name data) trace ->
          name = "weather.html"
          /\ pd_Hostname data = srv_Hostname s
          /\ pd_Now data = now
          /\ ((fetch_fails resp
               /\ pd_Error data = "Unable to fetch weather data. Please try again later."
               /\ pd_Weather data = None
               /\ pd_Hourly data = [])
              \/ (~ fetch_fails resp
                  /\ pd_Error data = ""
                  /\ exists weather,
                       pd_Weather data = Some weather
                       /\ fetchWeather resp = Some (inr (weather, pd_Hourly data)))))
    /\ ((exists name data, In (Execute name data) trace)
        <-> forall cause, tpl <> ParseFails cause)
    /\ ((exists msg url err, In (SlogWarn msg url err) trace) <-> tpl <> Rendered)
    /\ ((exists msg err, In (SlogError msg err) trace) <-> fetch_fails resp).
Proof.
  unfold HandleRoot.
  destruct (fetchWeather_cases resp) as [[Hfail [err Hf]] | [Hok (data & -> & Hf)]];
    rewrite Hf; cbn [bind pd_Hostname pd_Now pd_Weather pd_Hourly pd_Error];
    destruct tpl as [cause | cause |]; cbn [renderTemplate app];
    eexists; (split; [reflexivity|]);
    (split; [trace_has|]); (split; [trace_has|]);
    (split; [intros msg code Hin; in_trace Hin|]).
  all: split;
    [ intros name pd Hin; in_trace Hin; injection Hin as <- <-;
      cbn [pd_Hostname pd_Now pd_Weather pd_Hourly pd_Error];
      (split; [reflexivity|]); (split; [reflexivity|]); (split; [reflexivity|]);
      first [ left; split; [exact Hfail|]; repeat split; reflexivity
            | right; split; [exact Hok|]; split; [reflexivity|];
              eexists; split; reflexivity ]
    | split;
      [ split;
        [ first [ solve [intros _ c Hc; discriminate Hc]
                | solve [intros (name & pd & Hin); in_trace Hin] ]
        | first [ solve [intros Hn; now destruct (Hn cause)]
                | solve [intros _; eexists _, _; trace_has] ] ]
      | split;
        [ split;
          [ first [ solve [intros _ Hc; discriminate Hc]
                  | solve [intros (msg & url & e & Hin); in_trace Hin] ]
          | first [ solve [intros Hn; now destruct Hn]
                  | solve [intros _; eexists _, _, _; trace_has] ] ]
        | split;
          [ first [ solve [intros _; exact Hfail]
                  | solve [intros (msg & e & Hin); in_trace Hin] ]
          | first [ solve [intros Hn; now destruct (Hok Hn)]
                  | solve [intros _; eexists _, _; trace_has] ] ] ] ] ].
Qed.

Lemma HandleRoot_page_witness :
  exists trace,
    HandleRoot {| srv_Hostname := "localhost"; srv_TemplatesDir := "templates";
                  srv_StaticDir := "static" |}
      "2024-03-15T15:04:05-04:00" "/" (GetFailed "timeout") Rendered = Some trace
    /\ (exists name data, In (Execute name data) trace)
    /\ (exists msg err, In (SlogError msg err) trace).
Proof.
  destruct (HandleRoot_page
              {| srv_Hostname := "localhost"; srv_TemplatesDir := "templates";
                 srv_StaticDir := "static" |}
              "2024-03-15T15:04:05-04:00" "/" (GetFailed "timeout") Rendered)
    as (trace & Hrun & _ & _ & _ & _ & Hexec & _ & Hlog).
  exists trace. split; [exact Hrun|]. split.
  - apply Hexec. discriminate.
  - apply Hlog. exact I.
Defined.

(** X17. The page and the API show the same weather: for one upstream
    response, the record and the entries [HandleAPI] encodes are the ones in
    the page data [HandleRoot] executes its template on, and the page carries
    the error message exactly when the API answers 503. *)
Theorem handlers_agree (s : Server) (now path : string) (resp : getOutcome)
    (tpl : templateOutcome) :
  (forall cause, tpl <> ParseFails cause) ->
  exists page api data,
    HandleRoot s now path resp tpl = Some page
    /\ HandleAPI resp = Some api
    /\ In (Execute "weather.html" data) page
    /\ (forall weather hourly,
          In (Encode weather hourly) api
          <-> pd_Weather data = Some weather /\ pd_Hourly data = hourly)
    /\ ((exists msg, In (HttpError msg StatusServiceUnavailable) api)
        <-> pd_Error data <> "").
Proof.
  intros Htpl. unfold HandleRoot, HandleAPI.
  destruct (fetchWeather_cases resp) as [[Hfail [err Hf]] | [Hok (d & -> & Hf)]];
    rewrite Hf; cbn [bind pd_Hostname pd_Now pd_Weather pd_Hourly pd_Error];
    (destruct tpl as [cause | cause |]; [now destruct (Htpl cause) | |]);
    cbn [renderTemplate app];
    eexists _, _, _; (split; [reflexivity|]); (split; [reflexivity|]);
    (split; [trace_has|]);
    cbn [pd_Hostname pd_Now pd_Weather pd_Hourly pd_Error].
  all: split;
    [ intros weather hourly; split;
      [ intros Hin; in_trace Hin; injection Hin as <- <-; split; reflexivity
      | intros [Hw Hh]; first [discriminate Hw | injection Hw as <-; subst hourly; trace_has] ]
    | split;
      [ first [ solve [intros _; discriminate]
              | solve [intros (msg & Hin); in_trace Hin] ]
      | first [ solve [intros Hn; now destruct Hn]
              | solve [intros _; eexists; trace_has] ] ] ].
Qed.

Lemma handlers_agree_witness :
  exists page api data,
    HandleRoot {| srv_Hostname := "localhost"; srv_TemplatesDir := "templates";
                  srv_StaticDir := "static" |}
      "2024-03-15T15:04:05-04:00" "/" (GetResponse 200 (inr mixed_isDay_response))
      (ExecuteFails "write: broken pipe") = Some page
    /\ HandleAPI (GetResponse 200 (inr mixed_isDay_response)) = Some api
    /\ In (Execute "weather.html" data) page
    /\ (forall weather hourly,
          In (Encode weather hourly) api
          <-> pd_Weather data = Some weather /\ pd_Hourly data = hourly)
    /\ ((exists msg, In (HttpError msg StatusServiceUnavailable) api)
        <-> pd_Error data <> "").
Proof.
  apply (handlers_agree
           {| srv_Hostname := "localhost"; srv_TemplatesDir := "templates";
              srv_StaticDir := "static" |}
           "2024-03-15T15:04:05-04:00" "/" (GetResponse 200 (inr mixed_isDay_response))
           (ExecuteFails "write: broken pipe")).
  discriminate.
Defined.
